(** * autoupdater: update decision, single-instance lock and mirror loop

    A shallow embedding of [admin/autoupdater/src/autoupdater.c] and the
    properties of its probability function, its option parser, its lock
    and its randomised mirror loop.

    The C functions are embedded under their own names.  Code that
    terminates the process ([exit]), writes to [stderr], reads the
    configuration or the clock runs in the monad [proc]; the values the
    operating system and the C library hand to the program are collected
    in the record [world]. *)

From Stdlib Require Import ZArith List String Ascii Bool Lia Permutation.
From Stdlib Require Import Reals Lra.
From Stdlib Require Import Floats.SpecFloat.
From ExtLib Require Import Structures.Monad.
Import ListNotations.
Import MonadNotation.

Local Open Scope monad_scope.
Local Open Scope string_scope.
Local Open Scope list_scope.

(* ===================================================================== *)
(** * Arithmetic of the C type [float] *)
(* ===================================================================== *)

(** The operations [get_probability] performs on values of type [float]:
    conversion from an integer, the four arithmetic operators, the two
    comparisons it uses, and [powf] from the C mathematics library. *)
Class FloatOps (F : Type) : Type := {
  of_int : Z -> F;
  fmul : F -> F -> F;
  fadd : F -> F -> F;
  fsub : F -> F -> F;
  fdiv : F -> F -> F;
  flt : F -> F -> bool;
  fge : F -> F -> bool;
  float_0_75 : F;
  powf : F -> F -> F
}.

(** ** IEEE 754 binary32

    [float] as the target devices compute it: every conversion and every
    operator is rounded to binary32, to nearest with ties to even
    ([FLT_EVAL_METHOD] 0, a product and a difference not fused). *)
Module Binary32.

Definition prec : Z := 24.
Definition emax : Z := 128.

Definition float : Type := spec_float.

Definition of_Z (n : Z) : float := binary_normalize prec emax n 0 false.
Definition mul : float -> float -> float := SFmul prec emax.
Definition add : float -> float -> float := SFadd prec emax.
Definition sub : float -> float -> float := SFsub prec emax.
Definition div : float -> float -> float := SFdiv prec emax.
Definition ltb : float -> float -> bool := SFltb.
(** [a >= b] is false as soon as one side is a NaN. *)
Definition geb (a b : float) : bool := SFleb b a.

(** 0.75 = 3 * 2^-2. *)
Definition c_0_75 : float := binary_normalize prec emax 3 (-2) false.

(** [powf] is supplied by the C library; the instance takes it as an
    argument. *)
Definition ops (libm_powf : float -> float -> float) : FloatOps float := {|
  of_int := of_Z;
  fmul := mul;
  fadd := add;
  fsub := sub;
  fdiv := div;
  flt := ltb;
  fge := geb;
  float_0_75 := c_0_75;
  powf := libm_powf
|}.

(** A [powf] that fixes only what Annex F of the C standard fixes for a
    zero exponent, [pow(x, +-0) = 1]; elsewhere it answers NaN. *)
Definition powf_zero_exponent (x y : float) : float :=
  match y with
  | S754_zero _ => of_Z 1
  | _ => S754_nan
  end.

End Binary32.

(** ** Exact real arithmetic, the reading under which the specification
    states its formulas *)
Module Exact.

Definition ltb (a b : R) : bool := if Rlt_dec a b then true else false.
Definition geb (a b : R) : bool := if Rge_dec a b then true else false.

Definition ops : FloatOps R := {|
  of_int := IZR;
  fmul := Rmult;
  fadd := Rplus;
  fsub := Rminus;
  fdiv := Rdiv;
  flt := ltb;
  fge := geb;
  float_0_75 := (3 / 4)%R;
  powf := Rpower
|}.

End Exact.

(* ===================================================================== *)
(** * The process: globals, environment, effects *)
(* ===================================================================== *)

Definition nl : string := String (ascii_of_nat 10) EmptyString.

(** [struct globals]; [G = {}] is [G0].  A [const char *] that may be
    NULL is an [option string].  The UCI context pointer [ctx] is
    represented by the configuration in [world]; [branch_name] is never
    read or written. *)
Record globals : Type := mkGlobals {
  force : bool;
  fallback : bool;
  branch : option string;
  old_version : option string;
  n_mirrors : nat;
  mirrors : list (option string);
  n_pubkeys : nat;
  pubkeys : list (option string);
  good_signatures : Z
}.

Definition G0 : globals := {|
  force := false;
  fallback := false;
  branch := None;
  old_version := None;
  n_mirrors := 0;
  mirrors := [];
  n_pubkeys := 0;
  pubkeys := [];
  good_signatures := 0
|}.

(** ** UCI configuration *)

(** One item of a list option, a [struct uci_element] of the list
    [o->v.list].  libuci keeps the configured value of the item in the
    name of the element, [e->name].  [load_string_list] does not read
    that field: it reads [uci_to_option(e)->v.string], the word of a
    [struct uci_option] laid over the element.  libuci stores no string
    there for a list item; what the word holds is [item_v_string], NULL
    ([None]) in the memory libuci allocates zero-filled. *)
Record uci_item : Type := mkItem {
  item_name : string;
  item_v_string : option string
}.

Inductive uci_value : Type :=
| UCI_TYPE_STRING (s : string)
| UCI_TYPE_LIST (l : list uci_item).

Record uci_section : Type := mkSection {
  sec_name : string;
  sec_type : string;
  sec_options : list (string * uci_value)
}.

Definition uci_package : Type := list uci_section.

(** ** Errors of [getopt_long]

    The cases in which [getopt_long] answers ['?']: an option character
    that is not in [optstring], an option without the argument it
    requires, and a long option given an argument it does not take. *)
Inductive getopt_error : Type :=
| GetoptInvalidOption (c : string)
| GetoptMissingArgument (opt : string)
| GetoptUnexpectedArgument (opt : string).

(** ** What the program observes of its environment *)
Record world (F : Type) : Type := mkWorld {
  (** [argv[1]] ... [argv[argc-1]] *)
  argv : list string;
  (** the line [getopt_long] writes to [stderr] for an error ([opterr]
      keeps its initial value 1 and [optstring] does not start with a
      colon); its wording is the C library's *)
  libc_getopt_message : getopt_error -> string;
  (** [platforminfo_get_image_name()] *)
  image_name : option string;
  (** the package loaded by [uci_load(ctx, "autoupdater", &p)], if any *)
  uci_autoupdater : option uci_package;
  (** first line of a file, as [getline] reads it; [None] when [fopen]
      or [getline] fails *)
  first_line : string -> option string;
  (** [strtoul(str, &end, 0)]: the number and the unparsed rest *)
  libc_strtoul : string -> Z * string;
  (** [tv_nsec] of [clock_gettime(CLOCK_MONOTONIC)], or [strerror(errno)] *)
  clock_monotonic_nsec : Z + string;
  (** the [n]-th result of [random()] after [srandom(seed)] *)
  libc_random : Z -> nat -> Z;
  (** [time(NULL)] *)
  time_now : Z;
  (** width of the signed integer type [time_t] in bits, 32 or 64 *)
  time_t_bits : positive;
  (** the number [fscanf] reads from /proc/uptime, if any *)
  proc_uptime : option F;
  (** [open(path, O_CREAT|O_RDONLY, 0666)]: descriptor or [strerror(errno)] *)
  sys_open : string -> Z + string;
  (** whether another process holds a [flock] lock on the file *)
  locked_elsewhere : string -> bool
}.

Arguments mkWorld {F}.
Arguments argv {F}.
Arguments libc_getopt_message {F}.
Arguments image_name {F}.
Arguments uci_autoupdater {F}.
Arguments first_line {F}.
Arguments libc_strtoul {F}.
Arguments clock_monotonic_nsec {F}.
Arguments libc_random {F}.
Arguments time_now {F}.
Arguments time_t_bits {F}.

(** The largest value of type [time_t]. *)
Definition TIME_T_MAX {F} (w : world F) : Z :=
  (2 ^ (Z.pos (time_t_bits w) - 1) - 1)%Z.
Arguments proc_uptime {F}.
Arguments sys_open {F}.
Arguments locked_elsewhere {F}.

(** ** Observable events, in program order

    [EvExec] stands for the start of an external program (a hook); no
    function of the source starts one, so no computation below emits
    it. *)
Inductive event : Type :=
| EvStderr (text : string)
| EvOpen (path : string) (flags mode : Z)
| EvFlock (fd operation : Z)
| EvSrandom (seed : Z)
| EvAutoupdate (mirror : string)   (* a call [autoupdate(mirror)] *)
| EvExec (program : string) (arg : string). (* an external program is run *)

Record state : Type := mkState {
  G : globals;
  trace : list event;
  random_seed : Z;
  random_calls : nat
}.

Definition state0 : state :=
  {| G := G0; trace := []; random_seed := 1; random_calls := 0 |}.

(** How a computation ends: it returns, the process exits with a status,
    the process sleeps in the kernel forever, or the C program has no
    defined behaviour. *)
Inductive outcome (A : Type) : Type :=
| Ret (a : A)
| Exit (status : Z)
| Blocked
| Undefined.

Arguments Ret {A}.
Arguments Exit {A}.
Arguments Blocked {A}.
Arguments Undefined {A}.

Section Proc.

Context {F : Type} {FO : FloatOps F}.

Definition proc (A : Type) : Type := world F -> state -> outcome A * state.

Definition proc_ret {A} (a : A) : proc A := fun _ s => (Ret a, s).

Definition proc_bind {A B} (c : proc A) (k : A -> proc B) : proc B :=
  fun w s =>
    match c w s with
    | (Ret a, s') => k a w s'
    | (Exit n, s') => (Exit n, s')
    | (Blocked, s') => (Blocked, s')
    | (Undefined, s') => (Undefined, s')
    end.

#[export] Instance Monad_proc : Monad proc :=
  {| ret := @proc_ret; bind := @proc_bind |}.

Definition exit {A} (status : Z) : proc A := fun _ s => (Exit status, s).
Definition block {A} : proc A := fun _ s => (Blocked, s).
Definition undefined {A} : proc A := fun _ s => (Undefined, s).

Definition ask {A} (f : world F -> A) : proc A := fun w s => (Ret (f w), s).
Definition getG {A} (f : globals -> A) : proc A := fun _ s => (Ret (f (G s)), s).
Definition setG (f : globals -> globals) : proc unit :=
  fun _ s => (Ret tt, {| G := f (G s); trace := trace s;
                         random_seed := random_seed s;
                         random_calls := random_calls s |}).
Definition emit (e : event) : proc unit :=
  fun _ s => (Ret tt, {| G := G s; trace := trace s ++ [e];
                         random_seed := random_seed s;
                         random_calls := random_calls s |}).

(** [fputs(text, stderr)] and [fprintf(stderr, ...)] *)
Definition fputs_stderr (text : string) : proc unit := emit (EvStderr text).


(* ===================================================================== *)
(** * Command line *)
(* ===================================================================== *)

(** ** [getopt_long] *)

Inductive has_arg : Type := no_argument | required_argument.

(** [struct option] with [flag == NULL]. *)
Record long_option : Type := mkOption {
  opt_name : string;
  opt_has_arg : has_arg;
  opt_val : Z
}.

(** One answer of [getopt_long]: the value it returns with [optarg];
    the answer ['?'] for an error, which it returns after it has written
    its own message about the error to [stderr]; or no defined answer at
    all. *)
Inductive getopt_result : Type :=
| GetoptOption (c : Z) (optarg : option string)
| GetoptError (e : getopt_error)
| GetoptUndefined.

Definition QUESTION_MARK : Z := 63.
Definition COLON : ascii := ascii_of_nat 58.
Definition DASH : ascii := ascii_of_nat 45.
Definition EQUALS : ascii := ascii_of_nat 61.

(** Is [c] an option character of [optstring], and does it take an
    argument? *)
Fixpoint optstring_lookup (optstring : list ascii) (c : ascii) : option bool :=
  match optstring with
  | [] => None
  | o :: rest =>
      if (Ascii.eqb o c && negb (Ascii.eqb o COLON))%bool then
        Some match rest with
             | n :: _ => Ascii.eqb n COLON
             | [] => false
             end
      else optstring_lookup rest c
  end.

(** The options of one argument [-xyz]: the answers it gives and, if its
    last option still waits for its argument, that option. *)
Fixpoint short_cluster (optstring : list ascii) (chars : list ascii)
  : list getopt_result * option ascii :=
  match chars with
  | [] => ([], None)
  | c :: rest =>
      let code := Z.of_nat (nat_of_ascii c) in
      match optstring_lookup optstring c with
      | None =>
          let (rs, pending) := short_cluster optstring rest in
          (GetoptError (GetoptInvalidOption (String c EmptyString)) :: rs,
           pending)
      | Some false =>
          let (rs, pending) := short_cluster optstring rest in
          (GetoptOption code None :: rs, pending)
      | Some true =>
          match rest with
          | [] => ([], Some c)
          | _ :: _ =>
              ([GetoptOption code (Some (string_of_list_ascii rest))], None)
          end
      end
  end.

(** [--name] or [--name=value], split at the first [=]. *)
Fixpoint split_equals (chars : list ascii) : list ascii * option (list ascii) :=
  match chars with
  | [] => ([], None)
  | c :: rest =>
      if Ascii.eqb c EQUALS then ([], Some rest)
      else let (name, value) := split_equals rest in (c :: name, value)
  end.

Inductive argument_class : Type :=
| ArgEnd                                      (* "--" *)
| ArgOperand                                  (* not an option *)
| ArgLong (name : string) (value : option string)
| ArgShort (chars : list ascii).

Definition classify (arg : string) : argument_class :=
  match list_ascii_of_string arg with
  | d1 :: d2 :: rest =>
      if Ascii.eqb d1 DASH then
        if Ascii.eqb d2 DASH then
          match rest with
          | [] => ArgEnd
          | _ :: _ =>
              let (name, value) := split_equals rest in
              ArgLong (string_of_list_ascii name)
                      (option_map string_of_list_ascii value)
          end
        else ArgShort (d2 :: rest)
      else ArgOperand
  | _ => ArgOperand
  end.

(** All the answers [getopt_long(argc, argv, optstring, longopts, NULL)]
    gives before it returns -1, one per call.  Operands are skipped (the
    C library moves them behind the options).  An error is answered with
    ['?'] after a message on [stderr]: [GetoptError].  A long option is looked
    up by its full name; the search for a name that is not in [longopts]
    does not stop at the last element when the array has no terminating
    all-zero element, so it has no defined answer. *)
Fixpoint getopt_long_all (optstring : list ascii) (longopts : list long_option)
                         (args : list string) : list getopt_result :=
  match args with
  | [] => []
  | a :: rest =>
      match classify a with
      | ArgEnd => []
      | ArgOperand => getopt_long_all optstring longopts rest
      | ArgLong name value =>
          match find (fun o => String.eqb (opt_name o) name) longopts with
          | None => [GetoptUndefined]
          | Some o =>
              match opt_has_arg o, value with
              | no_argument, None =>
                  GetoptOption (opt_val o) None
                    :: getopt_long_all optstring longopts rest
              | no_argument, Some _ =>
                  GetoptError (GetoptUnexpectedArgument name)
                    :: getopt_long_all optstring longopts rest
              | required_argument, Some v =>
                  GetoptOption (opt_val o) (Some v)
                    :: getopt_long_all optstring longopts rest
              | required_argument, None =>
                  match rest with
                  | [] => [GetoptError (GetoptMissingArgument name)]
                  | v :: rest' =>
                      GetoptOption (opt_val o) (Some v)
                        :: getopt_long_all optstring longopts rest'
                  end
              end
          end
      | ArgShort chars =>
          let (rs, pending) := short_cluster optstring chars in
          match pending with
          | None => rs ++ getopt_long_all optstring longopts rest
          | Some c =>
              match rest with
              | [] =>
                  rs ++ [GetoptError
                           (GetoptMissingArgument (String c EmptyString))]
              | v :: rest' =>
                  rs ++ GetoptOption (Z.of_nat (nat_of_ascii c)) (Some v)
                     :: getopt_long_all optstring longopts rest'
              end
          end
      end
  end.

(** ** [parse_args] *)

(** [enum option_values] *)
Definition OPTION_BRANCH : Z := Z.of_nat (nat_of_ascii "b").
Definition OPTION_FORCE : Z := Z.of_nat (nat_of_ascii "f").
Definition OPTION_HELP : Z := Z.of_nat (nat_of_ascii "h").
Definition OPTION_FALLBACK : Z := 256.

(** [options[]]: four elements, and no terminating element. *)
Definition options : list long_option :=
  [ mkOption "branch"   required_argument OPTION_BRANCH;
    mkOption "force"    no_argument       OPTION_FORCE;
    mkOption "fallback" no_argument       OPTION_FALLBACK;
    mkOption "help"     no_argument       OPTION_HELP ].

Definition set_force (b : bool) (g : globals) : globals :=
  mkGlobals b (fallback g) (branch g) (old_version g) (n_mirrors g)
            (mirrors g) (n_pubkeys g) (pubkeys g) (good_signatures g).
Definition set_fallback (b : bool) (g : globals) : globals :=
  mkGlobals (force g) b (branch g) (old_version g) (n_mirrors g)
            (mirrors g) (n_pubkeys g) (pubkeys g) (good_signatures g).
Definition set_branch (b : option string) (g : globals) : globals :=
  mkGlobals (force g) (fallback g) b (old_version g) (n_mirrors g)
            (mirrors g) (n_pubkeys g) (pubkeys g) (good_signatures g).
Definition set_old_version (v : option string) (g : globals) : globals :=
  mkGlobals (force g) (fallback g) (branch g) v (n_mirrors g)
            (mirrors g) (n_pubkeys g) (pubkeys g) (good_signatures g).
Definition set_mirrors (n : nat) (m : list (option string)) (g : globals) : globals :=
  mkGlobals (force g) (fallback g) (branch g) (old_version g) n
            m (n_pubkeys g) (pubkeys g) (good_signatures g).
Definition set_pubkeys (n : nat) (k : list (option string)) (g : globals) : globals :=
  mkGlobals (force g) (fallback g) (branch g) (old_version g) (n_mirrors g)
            (mirrors g) n k (good_signatures g).
Definition set_good_signatures (n : Z) (g : globals) : globals :=
  mkGlobals (force g) (fallback g) (branch g) (old_version g) (n_mirrors g)
            (mirrors g) (n_pubkeys g) (pubkeys g) n.

Definition usage : proc unit :=
  fputs_stderr ("Usage: autoupdater <foo>" ++ nl).

(** The [switch] of [parse_args].  No case ends in [break]: control
    entering at one label runs every statement below it, down to the
    [exit(0)] of the help case. *)
Definition case_OPTION_HELP : proc unit :=
  usage ;; exit 0.
Definition case_OPTION_FALLBACK : proc unit :=
  setG (set_fallback true) ;; case_OPTION_HELP.
Definition case_OPTION_FORCE : proc unit :=
  setG (set_force true) ;; case_OPTION_FALLBACK.
Definition case_OPTION_BRANCH (optarg : option string) : proc unit :=
  setG (set_branch optarg) ;; case_OPTION_FORCE.
Definition case_default : proc unit :=
  usage ;; exit 1.

Definition parse_args_switch (c : Z) (optarg : option string) : proc unit :=
  if (c =? OPTION_BRANCH)%Z then case_OPTION_BRANCH optarg
  else if (c =? OPTION_FORCE)%Z then case_OPTION_FORCE
  else if (c =? OPTION_FALLBACK)%Z then case_OPTION_FALLBACK
  else if (c =? OPTION_HELP)%Z then case_OPTION_HELP
  else case_default.

(** [while (true)]: one round per answer of [getopt_long]; the loop is
    left when the answers are used up ([c < 0]).  For an error the call
    of [getopt_long] itself writes the message of the C library, then
    returns ['?']. *)
Fixpoint parse_args_loop (answers : list getopt_result) : proc unit :=
  match answers with
  | [] => ret tt
  | GetoptUndefined :: _ => undefined
  | GetoptOption c optarg :: rest =>
      parse_args_switch c optarg ;; parse_args_loop rest
  | GetoptError e :: rest =>
      message <- ask (fun w => libc_getopt_message w e) ;;
      fputs_stderr message ;;
      parse_args_switch QUESTION_MARK None ;; parse_args_loop rest
  end.

Definition parse_args : proc unit :=
  args <- ask argv ;;
  parse_args_loop
    (getopt_long_all (list_ascii_of_string "b:fh") options args).


(* ===================================================================== *)
(** * Settings *)
(* ===================================================================== *)

(** [read_one_line]: the first line of the file without its newline. *)
Fixpoint chomp (line : string) : string :=
  match line with
  | EmptyString => EmptyString
  | String c EmptyString =>
      if Ascii.eqb c (ascii_of_nat 10) then EmptyString else line
  | String c rest => String c (chomp rest)
  end.

Definition read_one_line (filename : string) : proc (option string) :=
  line <- ask (fun w => first_line w filename) ;;
  ret (option_map chomp line).

Fixpoint uci_lookup_option (opts : list (string * uci_value)) (name : string)
  : option uci_value :=
  match opts with
  | [] => None
  | (n, v) :: rest => if String.eqb n name then Some v else uci_lookup_option rest name
  end.

Definition uci_lookup_option_string (s : uci_section) (name : string)
  : option string :=
  match uci_lookup_option (sec_options s) name with
  | Some (UCI_TYPE_STRING v) => Some v
  | _ => None
  end.

Definition uci_lookup_section (p : uci_package) (name : string)
  : option uci_section :=
  find (fun s => String.eqb (sec_name s) name) p.

Definition load_positive_number (s : uci_section) (option_ : string) : proc Z :=
  match uci_lookup_option_string s option_ with
  | None =>
      fputs_stderr ("autoupdater: error: unable to load option '" ++ option_ ++ "'" ++ nl) ;;
      exit 1
  | Some str =>
      strtoul <- ask libc_strtoul ;;
      let (ret_, end_) := strtoul str in
      if (negb (String.eqb end_ "") || (ret_ =? 0)%Z)%bool then
        fputs_stderr ("autoupdater: error: invalid value for option '" ++ option_ ++ "'" ++ nl) ;;
        exit 1
      else ret ret_
  end.

(** The array gets one entry per item of the list: the field
    [v.string] read through [uci_to_option(e)], not the name of the
    item.  [malloc] is taken to succeed. *)
Definition load_string_list (s : uci_section) (option_ : string)
  : proc (list (option string) * nat) :=
  match uci_lookup_option (sec_options s) option_ with
  | None =>
      fputs_stderr ("autoupdater: error: unable to load option '" ++ option_ ++ "'" ++ nl) ;;
      exit 1
  | Some (UCI_TYPE_STRING _) =>
      fputs_stderr ("autoupdater: error: invalid value for option '" ++ option_ ++ "'" ++ nl) ;;
      exit 1
  | Some (UCI_TYPE_LIST l) => ret (map item_v_string l, List.length l)
  end.

Definition load_settings : proc unit :=
  loaded <- ask uci_autoupdater ;;
  match match loaded with
        | Some p =>
            match find (fun s => String.eqb (sec_type s) "settings") p with
            | Some s => Some (p, s)
            | None => None
            end
        | None => None
        end
  with
  | None =>
      fputs_stderr ("autoupdater: error: unable to load UCI settings" ++ nl) ;;
      exit 1
  | Some (p, s) =>
      (* found: *)
      b <- getG branch ;;
      match b with
      | None => setG (set_branch (uci_lookup_option_string s "branch"))
      | Some _ => ret tt
      end ;;
      b <- getG branch ;;
      match b with
      | None =>
          fputs_stderr ("autoupdater: error: no branch given in settings or command line" ++ nl) ;;
          exit 1
      | Some name =>
          match uci_lookup_section p name with
          | Some br =>
              if String.eqb (sec_type br) "branch" then
                n <- load_positive_number br "good_signatures" ;;
                setG (set_good_signatures n) ;;
                m <- load_string_list br "mirror" ;;
                setG (set_mirrors (snd m) (fst m)) ;;
                k <- load_string_list br "pubkey" ;;
                setG (set_pubkeys (snd k) (fst k)) ;;
                match uci_lookup_option_string s "version_file" with
                | Some version_file =>
                    line <- read_one_line version_file ;;
                    setG (set_old_version line)
                | None => ret tt
                end ;;
                f <- getG force ;;
                let enabled := uci_lookup_option_string s "enabled" in
                if (match enabled with
                    | None => true
                    | Some e => negb (String.eqb e "1")
                    end && negb f)%bool
                then
                  fputs_stderr ("autoupdater is disabled" ++ nl) ;;
                  exit 0
                else ret tt
              else
                fputs_stderr ("autoupdater: error: unable to load branch configuration" ++ nl) ;;
                exit 1
          | None =>
              fputs_stderr ("autoupdater: error: unable to load branch configuration" ++ nl) ;;
              exit 1
          end
      end
  end.

(* ===================================================================== *)
(** * Random numbers, uptime, probability *)
(* ===================================================================== *)

(** [srandom(seed)]; the argument is converted to [unsigned int]. *)
Definition srandom (seed : Z) : proc unit :=
  fun _ s => (Ret tt, {| G := G s;
                         trace := trace s ++ [EvSrandom (seed mod 2 ^ 32)%Z];
                         random_seed := (seed mod 2 ^ 32)%Z;
                         random_calls := 0 |}).

(** [random()]: the next number of the sequence the seed determines. *)
Definition random : proc Z :=
  fun w s => (Ret (libc_random w (random_seed s) (random_calls s)),
              {| G := G s; trace := trace s;
                 random_seed := random_seed s;
                 random_calls := S (random_calls s) |}).

Definition randomize : proc unit :=
  tv <- ask clock_monotonic_nsec ;;
  match tv with
  | inr errno =>
      fputs_stderr ("autoupdater: error: clock_gettime: " ++ errno ++ nl) ;;
      exit 1
  | inl tv_nsec => srandom tv_nsec
  end.

Definition get_uptime : proc F :=
  up <- ask proc_uptime ;;
  match up with
  | Some uptime => ret uptime
  | None =>
      fputs_stderr ("autoupdater: error: unable to determine uptime" ++ nl) ;;
      exit 1
  end.

(** [time_t diff = time(NULL) - date] is a subtraction in the signed
    type [time_t]: a difference above [TIME_T_MAX] overflows, and the
    behaviour of the program is not defined from there on.  [time]
    returns -1 or a number of seconds that is not negative, and [date]
    is a [time_t], so a negative difference is not below the least
    [time_t] and is always computed as it stands. *)
Definition get_probability (date : Z) (priority : F) : proc F :=
  let seconds := fmul priority (of_int 86400) in
  now <- ask time_now ;;
  time_t_max <- ask TIME_T_MAX ;;
  let diff := (now - date)%Z in
  if (time_t_max <? diff)%Z then undefined
  else if (diff <? 0)%Z then
    fputs_stderr ("autoupdater: warning: clock seems to be incorrect." ++ nl) ;;
    uptime <- get_uptime ;;
    if flt uptime (of_int 600) then ret (of_int 0)
    else ret (powf float_0_75 priority)
  else
    fb <- getG fallback ;;
    if fb then
      if fge (of_int diff) (fadd seconds (of_int 86400)) then ret (of_int 1)
      else ret (of_int 0)
    else if fge (of_int diff) seconds then ret (of_int 1)
    else
      let x := fdiv (of_int diff) seconds in
      ret (fsub (fmul (fmul (of_int 3) x) x)
                (fmul (fmul (fmul (of_int 2) x) x) x)).

(* ===================================================================== *)
(** * Lock *)
(* ===================================================================== *)

Definition O_RDONLY : Z := 0.
Definition O_CREAT : Z := 64.
Definition LOCK_EX : Z := 2.
Definition LOCK_NB : Z := 4.

(** [flock(fd, operation)] on a descriptor of [file], for the exclusive
    lock the program asks for: 0 when the lock is taken, -1 at once when
    another process holds it and [LOCK_NB] is set; without [LOCK_NB] the
    call sleeps until the holder lets go. *)
Definition flock (file : string) (fd operation : Z) : proc Z :=
  emit (EvFlock fd operation) ;;
  held <- ask (fun w => locked_elsewhere w file) ;;
  if held then
    if Z.testbit operation 2 then ret (-1)%Z else block
  else ret 0%Z.

Definition lock_autoupdater : proc unit :=
  let lockfile := "/var/run/autoupdater.lock" in
  emit (EvOpen lockfile (Z.lor O_CREAT O_RDONLY) 438) ;;
  opened <- ask (fun w => sys_open w lockfile) ;;
  match opened with
  | inr errno =>
      fputs_stderr ("autoupdater: error: unable to open lock file: " ++ errno ++ nl) ;;
      exit 1
  | inl fd =>
      r <- flock lockfile fd (Z.lor LOCK_EX LOCK_NB) ;;
      if (r =? 0)%Z then ret tt
      else
        fputs_stderr ("autoupdater: error: another instance is currently running" ++ nl) ;;
        exit 1
  end.

(* ===================================================================== *)
(** * Mirror loop *)
(* ===================================================================== *)

(** [autoupdate] has an empty body.  The event records that it was
    called, and with which mirror. *)
Definition autoupdate (mirror : string) : proc unit :=
  emit (EvAutoupdate mirror).

(** "Move forward by i non-NULL entries": the walk of the pointer
    [mirror] over the array, from the element at index [pos] on;
    [entries] are the elements from there to the end of the array.  The
    result is the index the pointer stops at and the string there.
    Reading the element behind the last one is not defined. *)
Fixpoint move_forward (entries : list (option string)) (pos i : nat)
  : option (nat * string) :=
  match entries with
  | [] => None
  | None :: rest => move_forward rest (S pos) i
  | Some m :: rest =>
      match i with
      | O => Some (pos, m)
      | S i' => move_forward rest (S pos) i'
      end
  end.

(** [a[pos] = v] *)
Fixpoint array_set {A} (a : list A) (pos : nat) (v : A) : list A :=
  match a, pos with
  | [], _ => []
  | _ :: rest, O => v :: rest
  | x :: rest, S pos' => x :: array_set rest pos' v
  end.

(** The body of [while (mirrors_left) { ... }], entered with
    [mirrors_left] non-zero. *)
Definition loop_body (mirrors_left : nat) : proc unit :=
  a <- getG mirrors ;;
  r <- random ;;
  let i := Z.to_nat (r mod Z.of_nat mirrors_left) in
  match move_forward a 0 i with
  | None => undefined
  | Some (pos, m) =>
      autoupdate m ;;
      (* When the update has failed, remove the mirror from the list *)
      setG (fun g => set_mirrors (n_mirrors g) (array_set (mirrors g) pos None) g)
      (* mirrors_left-- is the recursion of [mirror_loop] *)
  end.

(** [while (mirrors_left) { ... mirrors_left--; }] *)
Fixpoint mirror_loop (mirrors_left : nat) : proc unit :=
  match mirrors_left with
  | O => ret tt
  | S left_ => loop_body mirrors_left ;; mirror_loop left_
  end.

(** [main]; its result is the value it returns. *)
Definition main : proc Z :=
  parse_args ;;
  img <- ask image_name ;;
  match img with
  | None =>
      fputs_stderr ("autoupdater: error: unsupported hardware model" ++ nl) ;;
      exit 1
  | Some _ => ret tt
  end ;;
  load_settings ;;
  randomize ;;
  lock_autoupdater ;;
  mirrors_left <- getG n_mirrors ;;
  mirror_loop mirrors_left ;;
  fputs_stderr ("autoupdater: no usable mirror found" ++ nl) ;;
  ret 1%Z.

(** Everything [main] does before it takes the lock. *)
Definition before_lock : proc unit :=
  parse_args ;;
  img <- ask image_name ;;
  match img with
  | None =>
      fputs_stderr ("autoupdater: error: unsupported hardware model" ++ nl) ;;
      exit 1
  | Some _ => ret tt
  end ;;
  load_settings ;;
  randomize.

(** Everything [main] does before the mirror loop. *)
Definition startup : proc unit :=
  before_lock ;;
  lock_autoupdater.

(** What [main] does once the lock is held. *)
Definition attempt_all : proc Z :=
  mirrors_left <- getG n_mirrors ;;
  mirror_loop mirrors_left ;;
  fputs_stderr ("autoupdater: no usable mirror found" ++ nl) ;;
  ret 1%Z.

End Proc.

(** ** Running the program *)

(** Exit status of the process: the argument of [exit] or the value
    [main] returns. *)
Definition exit_status (o : outcome Z) : option Z :=
  match o with
  | Ret n => Some n
  | Exit n => Some n
  | Blocked => None
  | Undefined => None
  end.

Definition run {F} (w : world F) : outcome Z * state :=
  main w state0.

Definition stderr_of (t : list event) : list string :=
  flat_map (fun e => match e with EvStderr s => [s] | _ => [] end) t.

(** The mirrors [autoupdate] was called with, in order. *)
Definition attempts_of (t : list event) : list string :=
  flat_map (fun e => match e with EvAutoupdate m => [m] | _ => [] end) t.

Definition execs_of (t : list event) : list (string * string) :=
  flat_map (fun e => match e with EvExec p a => [(p, a)] | _ => [] end) t.

Definition flocks_of (t : list event) : list (Z * Z) :=
  flat_map (fun e => match e with EvFlock fd op => [(fd, op)] | _ => [] end) t.

(* ===================================================================== *)
(** * Vocabulary of the properties *)
(* ===================================================================== *)

(** ** The mirror array *)

(** Number of non-NULL entries. *)
Fixpoint count_live (a : list (option string)) : nat :=
  match a with
  | [] => 0
  | None :: rest => count_live rest
  | Some _ :: rest => S (count_live rest)
  end.

(** The non-NULL entries, in array order. *)
Fixpoint live_entries (a : list (option string)) : list string :=
  match a with
  | [] => []
  | None :: rest => live_entries rest
  | Some m :: rest => m :: live_entries rest
  end.

(** The mirror array as the loop expects it: no entry is NULL, and
    [n_mirrors] is the length of the array. *)
Definition mirrors_loaded (g : globals) : Prop :=
  mirrors g = map Some (live_entries (mirrors g))
  /\ n_mirrors g = List.length (mirrors g).

(** The state after one round of the loop that selected index [pos]. *)
Definition after_attempt (s : state) (pos : nat) (m : string) : state :=
  {| G := set_mirrors (n_mirrors (G s)) (array_set (mirrors (G s)) pos None) (G s);
     trace := trace s ++ [EvAutoupdate m];
     random_seed := random_seed s;
     random_calls := S (random_calls s) |}.

(** The index the loop body computes from its [random()] call. *)
Definition drawn_index {F} (w : world F) (s : state) (mirrors_left : nat) : nat :=
  Z.to_nat (libc_random w (random_seed s) (random_calls s)
            mod Z.of_nat mirrors_left).

(** The loop heads of a run of [main]: the first is reached when
    start-up returns, with [mirrors_left = G.n_mirrors]; the next after
    one round of the loop, with [mirrors_left] one less. *)
Inductive loop_head {F} (w : world F) : nat -> state -> Prop :=
| loop_head_first (s : state) :
    startup w state0 = (Ret tt, s) ->
    loop_head w (n_mirrors (G s)) s
| loop_head_next (mirrors_left : nat) (s s' : state) :
    loop_head w (S mirrors_left) s ->
    loop_body (S mirrors_left) w s = (Ret tt, s') ->
    loop_head w mirrors_left s'.

(** ** What a computation may write and how it may exit *)

Definition usage_text : string := "Usage: autoupdater <foo>" ++ nl.
Definition disabled_text : string := "autoupdater is disabled" ++ nl.
Definition no_mirror_text : string := "autoupdater: no usable mirror found" ++ nl.
Definition already_running_text : string :=
  "autoupdater: error: another instance is currently running" ++ nl.

(** [behaves P c]: [c] only appends events to the trace, all of them in
    [P]; when it exits, the status is 0 or 1; and an exit with status 0
    comes after the usage text or the "disabled" notice. *)
Definition behaves {F A} (P : event -> Prop) (c : @proc F A) : Prop :=
  forall (w : world F) (s : state),
  exists evs,
    trace (snd (c w s)) = trace s ++ evs
    /\ Forall P evs
    /\ (forall n, fst (c w s) = Exit n -> n = 0%Z \/ n = 1%Z)
    /\ (fst (c w s) = Exit 0%Z ->
        In (EvStderr usage_text) evs \/ In (EvStderr disabled_text) evs).

(** Events of the code that runs before the mirror loop. *)
Definition startup_event (e : event) : Prop :=
  match e with
  | EvStderr _ | EvOpen _ _ _ | EvFlock _ _ | EvSrandom _ => True
  | EvAutoupdate _ | EvExec _ _ => False
  end.

(** Every event but the start of an external program. *)
Definition not_exec (e : event) : Prop :=
  match e with
  | EvExec _ _ => False
  | _ => True
  end.

(** Events of the code that runs before the lock is taken. *)
Definition before_lock_event (e : event) : Prop :=
  match e with
  | EvStderr _ | EvSrandom _ => True
  | _ => False
  end.

(** The same device with another wall clock and another uptime. *)
Definition set_clock {F} (w : world F) (now : Z) (uptime : option F) : world F := {|
  argv := argv w;
  libc_getopt_message := libc_getopt_message w;
  image_name := image_name w;
  uci_autoupdater := uci_autoupdater w;
  first_line := first_line w;
  libc_strtoul := libc_strtoul w;
  clock_monotonic_nsec := clock_monotonic_nsec w;
  libc_random := libc_random w;
  time_now := now;
  time_t_bits := time_t_bits w;
  proc_uptime := uptime;
  sys_open := sys_open w;
  locked_elsewhere := locked_elsewhere w
|}.

(** [c] reads neither [time(NULL)] nor /proc/uptime. *)
Definition clock_free {F A} (c : @proc F A) : Prop :=
  forall (w : world F) (now : Z) (uptime : option F) (s : state),
    c (set_clock w now uptime) s = c w s.

(** ** Settings and outcomes *)

(** The section [load_settings] takes its settings from: the first
    section of type "settings" of the loaded package. *)
Definition settings_section {F} (w : world F) : option uci_section :=
  match uci_autoupdater w with
  | Some p => find (fun s => String.eqb (sec_type s) "settings") p
  | None => None
  end.

(** Whether that section has the string option [enabled] with the value
    "1". *)
Definition enabled_in_settings {F} (w : world F) : bool :=
  match settings_section w with
  | Some s =>
      match uci_lookup_option_string s "enabled" with
      | Some e => String.eqb e "1"
      | None => false
      end
  | None => false
  end.

(** [c] always returns or exits: it neither sleeps nor leaves the
    behaviour of the program undefined. *)
Definition ends_normally {F A} (c : @proc F A) : Prop :=
  forall (w : world F) (s : state),
    match fst (c w s) with
    | Ret _ | Exit _ => True
    | Blocked | Undefined => False
    end.

(** What [main] does between [parse_args] and the mirror loop. *)
Definition after_parse {F} : @proc F unit :=
  img <- ask image_name ;;
  match img with
  | None =>
      fputs_stderr ("autoupdater: error: unsupported hardware model" ++ nl) ;;
      exit 1
  | Some _ => ret tt
  end ;;
  load_settings ;;
  randomize ;;
  lock_autoupdater.

(** The answers of [getopt_long] for the command line of [w]. *)
Definition getopt_answers {F} (w : world F) : list getopt_result :=
  getopt_long_all (list_ascii_of_string "b:fh") options (argv w).

(** The four values of [enum option_values]. *)
Definition known_option (c : Z) : Prop :=
  c = OPTION_BRANCH \/ c = OPTION_FORCE \/ c = OPTION_FALLBACK \/ c = OPTION_HELP.

(** [EvOpen] events of a trace. *)
Definition opens_of (t : list event) : list (string * Z * Z) :=
  flat_map (fun e => match e with EvOpen p f m => [(p, f, m)] | _ => [] end) t.

(** ** Selection *)




(** ** Probability *)

Definition clock_warning_text : string :=
  "autoupdater: warning: clock seems to be incorrect." ++ nl.

(** The polynomial of the last [return] of [get_probability], with the
    operations in the order C evaluates [3*x*x - 2*x*x*x]. *)
Definition polynomial {F} {FO : FloatOps F} (x : F) : F :=
  fsub (fmul (fmul (of_int 3) x) x)
       (fmul (fmul (fmul (of_int 2) x) x) x).

(** [seconds] of [get_probability]. *)
Definition rollout_seconds {F} {FO : FloatOps F} (priority : F) : F :=
  fmul priority (of_int 86400).


(** A binary32 value that is a zero, a positive number or plus
    infinity. *)
Definition nonneg_float (x : Binary32.float) : Prop :=
  match x with
  | S754_zero _ => True
  | S754_finite false _ _ => True
  | S754_infinity false => True
  | _ => False
  end.

(** The smoothstep polynomial [3x^2 - 2x^3] over the reals. *)
Definition smoothstep (x : R) : R := (3 * x * x - 2 * x * x * x)%R.

(** The probability of the normal mode in exact arithmetic, for
    [diff >= 0]: 1 from [priority * 86400] seconds on, the smoothstep
    polynomial at [diff / (priority * 86400)] before. *)
Definition exact_rollout (priority : R) (diff : Z) : R :=
  if Rge_dec (IZR diff) (priority * 86400) then 1%R
  else smoothstep (IZR diff / (priority * 86400)).


(* ===================================================================== *)
(** * A concrete device *)
(* ===================================================================== *)

Module Device.

(** Decimal digits only; enough of [strtoul] for the configurations
    below. *)
Fixpoint strtoul_digits (acc : Z) (s : string) : Z * string :=
  match s with
  | EmptyString => (acc, EmptyString)
  | String c rest =>
      let d := nat_of_ascii c in
      if ((48 <=? d) && (d <=? 57))%nat
      then strtoul_digits (acc * 10 + Z.of_nat (d - 48))%Z rest
      else (acc, s)
  end.

Definition strtoul (s : string) : Z * string := strtoul_digits 0 s.

(** A linear congruential generator with results in [0, 2^31). *)
Definition lcg (seed : Z) (n : nat) : Z :=
  ((seed + Z.of_nat n) * 1103515245 + 12345) mod 2 ^ 31.

(** A list option as libuci holds it: the value of each item is the
    name of its element, and the word [v.string] is NULL. *)
Definition uci_list (values : list string) : uci_value :=
  UCI_TYPE_LIST (map (fun v => mkItem v None) values).

Definition config (mirror : list string) (enabled : string) : uci_package :=
  [ mkSection "settings" "settings"
      [("enabled", UCI_TYPE_STRING enabled);
       ("branch", UCI_TYPE_STRING "stable")];
    mkSection "stable" "branch"
      [("good_signatures", UCI_TYPE_STRING "2");
       ("mirror", uci_list mirror);
       ("pubkey", uci_list ["k1"; "k2"; "k3"])] ].

(** The messages of [getopt_long], in the wording of a C library. *)
Definition getopt_message (e : getopt_error) : string :=
  match e with
  | GetoptInvalidOption c =>
      "autoupdater: unrecognized option: " ++ c ++ nl
  | GetoptMissingArgument opt =>
      "autoupdater: option requires an argument: " ++ opt ++ nl
  | GetoptUnexpectedArgument opt =>
      "autoupdater: option does not take an argument: " ++ opt ++ nl
  end.

Definition ops : FloatOps Binary32.float :=
  Binary32.ops Binary32.powf_zero_exponent.

(** A device with the given command line, mirrors and lock state, whose
    clock reads [now] and which has been up for [uptime] seconds. *)
Definition device (args mirror : list string) (held : bool)
                  (now uptime : Z) : world Binary32.float := {|
  argv := args;
  libc_getopt_message := getopt_message;
  image_name := Some "tp-link-tl-wr841n-nd-v9";
  uci_autoupdater := Some (config mirror "1");
  first_line := fun _ => None;
  libc_strtoul := strtoul;
  clock_monotonic_nsec := inl 123456789%Z;
  libc_random := lcg;
  time_now := now;
  time_t_bits := 64;
  proc_uptime := Some (Binary32.of_Z uptime);
  sys_open := fun _ => inl 3%Z;
  locked_elsewhere := fun _ => held
|}.

(** The same device for the exact reading of [float]. *)
Definition exact_device (now : Z) (uptime : R) : world R := {|
  argv := [];
  libc_getopt_message := getopt_message;
  image_name := Some "tp-link-tl-wr841n-nd-v9";
  uci_autoupdater := Some (config [] "1");
  first_line := fun _ => None;
  libc_strtoul := strtoul;
  clock_monotonic_nsec := inl 123456789%Z;
  libc_random := lcg;
  time_now := now;
  time_t_bits := 64;
  proc_uptime := Some uptime;
  sys_open := fun _ => inl 3%Z;
  locked_elsewhere := fun _ => false
|}.

(** The state of that device when start-up has returned. *)
Definition booted (mirror : list string) : state :=
  snd (startup (device [] mirror false 1000 1000) state0).

(** A state at the head of the mirror loop in which the array holds the
    given candidates, none of them tried yet. *)
Definition loop_entry (candidates : list string) : state :=
  {| G := set_mirrors (List.length candidates) (map Some candidates) G0;
     trace := [];
     random_seed := 123456789;
     random_calls := 0 |}.

End Device.

(** Further devices. *)
Module Devices.

(** The device of [Device.device] with the option [enabled] set to the
    given value. *)
Definition with_enabled (enabled : string) (mirror : list string)
  : world Binary32.float := {|
  argv := [];
  libc_getopt_message := Device.getopt_message;
  image_name := Some "tp-link-tl-wr841n-nd-v9";
  uci_autoupdater := Some (Device.config mirror enabled);
  first_line := fun _ => Some ("v2016.1" ++ nl)%string;
  libc_strtoul := Device.strtoul;
  clock_monotonic_nsec := inl 123456789%Z;
  libc_random := Device.lcg;
  time_now := 1000%Z;
  time_t_bits := 64;
  proc_uptime := Some (Binary32.of_Z 1000);
  sys_open := fun _ => inl 3%Z;
  locked_elsewhere := fun _ => false
|}.


End Devices.

(* ===================================================================== *)
(** * The mirror array *)
(* ===================================================================== *)

Lemma count_live_map_Some (l : list string) :
  count_live (map Some l) = List.length l.
Proof. induction l as [|m l IH]; simpl; congruence. Qed.

Lemma live_entries_map_Some (l : list string) :
  live_entries (map Some l) = l.
Proof. induction l as [|m l IH]; simpl; congruence. Qed.

Lemma count_live_length_entries (a : list (option string)) :
  List.length (live_entries a) = count_live a.
Proof. induction a as [|[m|] a IH]; simpl; congruence. Qed.

(** The walk started with [i] below the number of live entries stops
    inside the array, on the live entry that has exactly [i] live
    entries before it. *)
Lemma move_forward_some (a : list (option string)) :
  forall pos i, i < count_live a ->
  exists p m, move_forward a pos i = Some (pos + p, m)
              /\ nth_error a p = Some (Some m)
              /\ count_live (firstn p a) = i.
Proof.
  induction a as [|[x|] a IH]; intros pos i Hi; simpl in *.
  - lia.
  - destruct i as [|i].
    + exists 0, x. rewrite Nat.add_0_r. auto.
    + destruct (IH (S pos) i) as (p & m & Hm & Hn & Hc); [lia|].
      exists (S p), m. simpl. rewrite Hm, Hc.
      repeat split; auto. do 2 f_equal. lia.
  - destruct (IH (S pos) i Hi) as (p & m & Hm & Hn & Hc).
    exists (S p), m. simpl. rewrite Hm, Hc.
    repeat split; auto. do 2 f_equal. lia.
Qed.

Lemma move_forward_inv (a : list (option string)) :
  forall pos i q m, move_forward a pos i = Some (q, m) ->
  exists p, q = pos + p /\ nth_error a p = Some (Some m)
            /\ count_live (firstn p a) = i.
Proof.
  induction a as [|[x|] a IH]; intros pos i q m H; simpl in *.
  - discriminate.
  - destruct i as [|i].
    + injection H as <- <-. exists 0. rewrite Nat.add_0_r. auto.
    + destruct (IH _ _ _ _ H) as (p & -> & Hn & Hc).
      exists (S p). simpl. rewrite Hc. repeat split; auto; lia.
  - destruct (IH _ _ _ _ H) as (p & -> & Hn & Hc).
    exists (S p). simpl. repeat split; auto; lia.
Qed.

Lemma move_forward_none (a : list (option string)) :
  forall pos i, count_live a <= i -> move_forward a pos i = None.
Proof.
  induction a as [|[x|] a IH]; intros pos i Hi; simpl in *; auto.
  destruct i as [|i]; [lia|]. apply IH. lia.
Qed.

Lemma nth_error_live_bound (a : list (option string)) p m :
  nth_error a p = Some (Some m) -> p < List.length a.
Proof. intros H. apply nth_error_Some. congruence. Qed.

Lemma count_live_array_set (a : list (option string)) :
  forall p m, nth_error a p = Some (Some m) ->
  S (count_live (array_set a p None)) = count_live a.
Proof.
  induction a as [|x a IH]; intros [|p] m H; simpl in *; try discriminate.
  - injection H as ->. reflexivity.
  - destruct x; simpl; rewrite <- (IH p m H); reflexivity.
Qed.

Lemma live_entries_array_set (a : list (option string)) :
  forall p m, nth_error a p = Some (Some m) ->
  Permutation (live_entries a) (m :: live_entries (array_set a p None)).
Proof.
  induction a as [|x a IH]; intros [|p] m H; simpl in *; try discriminate.
  - injection H as ->. reflexivity.
  - destruct x as [y|]; simpl.
    + rewrite (IH p m H). apply perm_swap.
    + apply (IH p m H).
Qed.

Lemma array_set_length {A} (a : list A) :
  forall p v, List.length (array_set a p v) = List.length a.
Proof. induction a as [|x a IH]; intros [|p] v; simpl; auto. Qed.

(* ===================================================================== *)
(** * Reasoning about [proc] *)
(* ===================================================================== *)

Section ProcFacts.

Context {F : Type} {FO : FloatOps F}.

Lemma bind_run {A B} (c : proc A) (k : A -> proc B) (w : world F) (s : state) :
  (x <- c ;; k x) w s =
  match c w s with
  | (Ret a, s') => k a w s'
  | (Exit n, s') => (Exit n, s')
  | (Blocked, s') => (Blocked, s')
  | (Undefined, s') => (Undefined, s')
  end.
Proof. reflexivity. Qed.

Lemma drawn_index_bound (w : world F) (s : state) (k : nat) :
  drawn_index w s (S k) < S k.
Proof.
  unfold drawn_index.
  pose proof (Z.mod_pos_bound (libc_random w (random_seed s) (random_calls s))
                              (Z.of_nat (S k)) ltac:(lia)).
  lia.
Qed.

(** One round of the loop, entered with [mirrors_left] equal to the
    number of live entries. *)
Lemma loop_body_spec (w : world F) (s : state) (k : nat) :
  count_live (mirrors (G s)) = S k ->
  exists pos m,
    move_forward (mirrors (G s)) 0 (drawn_index w s (S k)) = Some (pos, m)
    /\ nth_error (mirrors (G s)) pos = Some (Some m)
    /\ count_live (firstn pos (mirrors (G s))) = drawn_index w s (S k)
    /\ loop_body (S k) w s = (Ret tt, after_attempt s pos m).
Proof.
  intros Hk.
  destruct (move_forward_some (mirrors (G s)) 0 (drawn_index w s (S k)))
    as (p & m & Hm & Hn & Hc).
  { rewrite Hk. apply drawn_index_bound. }
  simpl in Hm.
  exists p, m. repeat split; auto.
  unfold loop_body. rewrite bind_run. cbn [getG fst snd].
  rewrite bind_run. unfold random at 1.
  fold (drawn_index w s (S k)).
  cbn [G]. rewrite Hm. reflexivity.
Qed.

Lemma after_attempt_live (s : state) (pos : nat) (m : string) (k : nat) :
  count_live (mirrors (G s)) = S k ->
  nth_error (mirrors (G s)) pos = Some (Some m) ->
  count_live (mirrors (G (after_attempt s pos m))) = k.
Proof.
  intros Hk Hn. simpl.
  pose proof (count_live_array_set _ _ _ Hn). lia.
Qed.

(** The whole loop, entered with [mirrors_left] equal to the number of
    live entries: it returns, having called [autoupdate] once for each
    live entry and [random] once per round, and leaves no entry live. *)
Lemma mirror_loop_spec (w : world F) (n : nat) :
  forall s, count_live (mirrors (G s)) = n ->
  exists s' tried,
    mirror_loop n w s = (Ret tt, s')
    /\ trace s' = trace s ++ map EvAutoupdate tried
    /\ Permutation tried (live_entries (mirrors (G s)))
    /\ count_live (mirrors (G s')) = 0
    /\ List.length (mirrors (G s')) = List.length (mirrors (G s))
    /\ random_calls s' = random_calls s + n.
Proof.
  induction n as [|k IH]; intros s Hn.
  - exists s, []. simpl. rewrite app_nil_r, Nat.add_0_r.
    repeat split; auto.
    destruct (live_entries (mirrors (G s))) eqn:E; auto.
    rewrite <- count_live_length_entries, E in Hn. discriminate.
  - destruct (loop_body_spec w s k Hn) as (pos & m & _ & Hnth & _ & Hbody).
    destruct (IH (after_attempt s pos m) (after_attempt_live _ _ _ _ Hn Hnth))
      as (s' & tried & Hloop & Htr & Hperm & Hz & Hlen & Hcalls).
    exists s', (m :: tried).
    change (mirror_loop (S k) w s)
      with ((loop_body (S k) ;; mirror_loop k) w s).
    rewrite bind_run, Hbody, Hloop.
    repeat split; auto.
    + rewrite Htr. simpl. rewrite <- app_assoc. reflexivity.
    + rewrite (live_entries_array_set _ _ _ Hnth).
      apply perm_skip. exact Hperm.
    + rewrite Hlen. simpl. apply array_set_length.
    + rewrite Hcalls. simpl. lia.
Qed.


Lemma behaves_ret {A} P (a : A) : behaves (F := F) P (ret a).
Proof.
  intros w s. exists []. simpl. rewrite app_nil_r.
  repeat split; auto; discriminate.
Qed.

Lemma behaves_pure {A} P (c : proc A) :
  (forall w s, exists a, c w s = (Ret a, s)) -> behaves (F := F) P c.
Proof.
  intros H w s. destruct (H w s) as [a ->]. exists []. simpl.
  rewrite app_nil_r. repeat split; auto; discriminate.
Qed.

Lemma behaves_ask {A} P (f : world F -> A) : behaves (F := F) P (ask f).
Proof. apply behaves_pure. intros w s. eexists. reflexivity. Qed.

Lemma behaves_getG {A} P (f : globals -> A) : behaves (F := F) P (getG f).
Proof. apply behaves_pure. intros w s. eexists. reflexivity. Qed.

Lemma behaves_setG P f : behaves (F := F) P (setG f).
Proof.
  intros w s. exists []. simpl. rewrite app_nil_r.
  repeat split; auto; discriminate.
Qed.

Lemma behaves_random P : behaves (F := F) P random.
Proof.
  intros w s. exists []. simpl. rewrite app_nil_r.
  repeat split; auto; discriminate.
Qed.

Lemma behaves_undefined {A} P : behaves (F := F) P (@undefined F A).
Proof.
  intros w s. exists []. simpl. rewrite app_nil_r.
  repeat split; auto; discriminate.
Qed.

Lemma behaves_block {A} P : behaves (F := F) P (@block F A).
Proof.
  intros w s. exists []. simpl. rewrite app_nil_r.
  repeat split; auto; discriminate.
Qed.

Lemma behaves_exit_1 {A} P : behaves (F := F) P (@exit F A 1%Z).
Proof.
  intros w s. exists []. simpl. rewrite app_nil_r.
  repeat split; auto; try discriminate.
  intros n [= <-]. auto.
Qed.

Lemma behaves_emit (P : event -> Prop) e : P e -> behaves (F := F) P (emit e).
Proof.
  intros He w s. exists [e]. simpl.
  repeat split; auto; discriminate.
Qed.

Lemma behaves_srandom (P : event -> Prop) seed :
  P (EvSrandom (seed mod 2 ^ 32)%Z) -> behaves (F := F) P (srandom seed).
Proof.
  intros He w s. exists [EvSrandom (seed mod 2 ^ 32)%Z]. simpl.
  repeat split; auto; discriminate.
Qed.

Lemma behaves_bind {A B} P (c : proc A) (k : A -> proc B) :
  behaves (F := F) P c -> (forall a, behaves (F := F) P (k a)) -> behaves (F := F) P (x <- c ;; k x).
Proof.
  intros Hc Hk w s. rewrite bind_run.
  destruct (Hc w s) as (evs & Ht & HP & Hn & H0).
  destruct (c w s) as [[a|n| |] s1]; simpl in *;
    try (exists evs; split; [exact Ht|split; [exact HP|split]];
         [intros n0 [= <-]; apply (Hn n); reflexivity
         |intros [= ->]; apply H0; reflexivity]);
    try (exists evs; split; [exact Ht|split; [exact HP|split]];
         intros; discriminate).
  destruct (Hk a w s1) as (evs' & Ht' & HP' & Hn' & H0').
  exists (evs ++ evs'). rewrite Ht', Ht, app_assoc.
  repeat split; auto.
  - apply Forall_app; auto.
  - intros E. destruct (H0' E) as [H|H]; [left|right];
      apply in_or_app; auto.
Qed.

(** The two places that exit with status 0. *)
Lemma behaves_usage_exit_0 {A} (P : event -> Prop) :
  P (EvStderr usage_text) -> behaves (F := F) P (usage ;; @exit F A 0%Z).
Proof.
  intros HP w s. exists [EvStderr usage_text]. simpl.
  split; [reflexivity|]. split; [auto|]. split.
  - intros n [= <-]. auto.
  - intros _. left. left. reflexivity.
Qed.

Lemma behaves_disabled_exit_0 {A} (P : event -> Prop) :
  P (EvStderr disabled_text) ->
  behaves (F := F) P (fputs_stderr disabled_text ;; @exit F A 0%Z).
Proof.
  intros HP w s. exists [EvStderr disabled_text]. simpl.
  split; [reflexivity|]. split; [auto|]. split.
  - intros n [= <-]. auto.
  - intros _. right. left. reflexivity.
Qed.

End ProcFacts.

(** Splits a goal [behaves P c] along the structure of [c]. *)
Ltac behaves_step :=
  match goal with
  | |- behaves _ (usage ;; exit 0%Z) => apply behaves_usage_exit_0
  | |- behaves _ (fputs_stderr (_ ++ nl) ;; exit 0%Z) =>
      apply behaves_disabled_exit_0
  | |- behaves _ (bind _ _) => apply behaves_bind; [|intros ?]
  | |- behaves _ (ret _) => apply behaves_ret
  | |- behaves _ (ask _) => apply behaves_ask
  | |- behaves _ (getG _) => apply behaves_getG
  | |- behaves _ (setG _) => apply behaves_setG
  | |- behaves _ random => apply behaves_random
  | |- behaves _ undefined => apply behaves_undefined
  | |- behaves _ block => apply behaves_block
  | |- behaves _ (exit 1%Z) => apply behaves_exit_1
  | |- behaves _ (fputs_stderr _) => apply behaves_emit
  | |- behaves _ (emit _) => apply behaves_emit
  | |- behaves _ (srandom _) => apply behaves_srandom
  | |- behaves _ usage => unfold usage
  | |- behaves _ (match ?x with _ => _ end) => destruct x
  end.

(** Unfolds the monad operations of the goal. *)
Ltac proc_unfold :=
  cbn [bind ret Monad_proc];
  unfold proc_bind, proc_ret, ask, getG, setG, emit, exit, block, undefined,
    fputs_stderr, srandom, random;
  cbn.

(** Case analysis on a scrutinee of the goal that contains no further
    [match]. *)
Ltac destruct_innermost :=
  match goal with
  | |- context [match ?x with _ => _ end] =>
      lazymatch x with
      | context [match _ with _ => _ end] => fail
      | _ => destruct x eqn:?
      end
  end.

Section Behaviour.

Context {F : Type} {FO : FloatOps F}.

Lemma behaves_weaken {A} (P Q : event -> Prop) (c : proc A) :
  (forall e, P e -> Q e) -> behaves (F := F) P c -> behaves Q c.
Proof.
  intros HPQ H w s. destruct (H w s) as (evs & Ht & HP & Hn & H0).
  exists evs. repeat split; auto.
  eapply Forall_impl; eauto.
Qed.

Lemma behaves_parse_args_switch c optarg :
  behaves (F := F) before_lock_event (parse_args_switch c optarg).
Proof.
  unfold parse_args_switch, case_OPTION_BRANCH, case_OPTION_FORCE,
    case_OPTION_FALLBACK, case_OPTION_HELP, case_default.
  repeat behaves_step; exact I.
Qed.

Lemma behaves_parse_args_loop answers :
  behaves (F := F) before_lock_event (parse_args_loop answers).
Proof.
  induction answers as [|[c optarg|e|] rest IH]; cbn [parse_args_loop].
  - apply behaves_ret.
  - apply behaves_bind; [apply behaves_parse_args_switch|intros _; exact IH].
  - apply behaves_bind; [apply behaves_ask|intros message].
    apply behaves_bind; [apply behaves_emit; exact I|intros _].
    apply behaves_bind; [apply behaves_parse_args_switch|intros _; exact IH].
  - apply behaves_undefined.
Qed.

Lemma behaves_parse_args : behaves (F := F) before_lock_event parse_args.
Proof.
  unfold parse_args. apply behaves_bind; [apply behaves_ask|].
  intros args. apply behaves_parse_args_loop.
Qed.

Lemma behaves_load_settings : behaves (F := F) before_lock_event load_settings.
Proof.
  unfold load_settings, load_positive_number, load_string_list, read_one_line.
  repeat behaves_step; exact I.
Qed.

Lemma behaves_randomize : behaves (F := F) before_lock_event randomize.
Proof. unfold randomize. repeat behaves_step; exact I. Qed.

Lemma behaves_before_lock : behaves (F := F) before_lock_event before_lock.
Proof.
  unfold before_lock.
  apply behaves_bind; [apply behaves_parse_args|intros _].
  apply behaves_bind; [apply behaves_ask|intros img].
  apply behaves_bind; [destruct img; repeat behaves_step; exact I|intros _].
  apply behaves_bind; [apply behaves_load_settings|intros _].
  apply behaves_randomize.
Qed.

Lemma behaves_lock_autoupdater :
  behaves (F := F) startup_event lock_autoupdater.
Proof. unfold lock_autoupdater, flock. repeat behaves_step; exact I. Qed.

Lemma before_lock_startup_event (e : event) :
  before_lock_event e -> startup_event e.
Proof. destruct e; simpl; auto. Qed.

Lemma startup_not_exec (e : event) : startup_event e -> not_exec e.
Proof. destruct e; simpl; auto. Qed.

Lemma behaves_startup : behaves (F := F) startup_event startup.
Proof.
  unfold startup.
  apply behaves_bind;
    [apply (behaves_weaken _ _ _ before_lock_startup_event behaves_before_lock)
    |intros _; apply behaves_lock_autoupdater].
Qed.

Lemma behaves_loop_body n : behaves (F := F) not_exec (loop_body n).
Proof. unfold loop_body, autoupdate. repeat behaves_step; exact I. Qed.

Lemma behaves_mirror_loop n : behaves (F := F) not_exec (mirror_loop n).
Proof.
  induction n as [|n IH]; simpl.
  - apply behaves_ret.
  - apply behaves_bind; [apply behaves_loop_body|intros _; exact IH].
Qed.

End Behaviour.

(* ===================================================================== *)
(** * [main] as start-up followed by the mirror loop *)
(* ===================================================================== *)

Section MainFacts.

Context {F : Type} {FO : FloatOps F}.

Lemma main_startup (w : world F) (s : state) :
  main w s = (startup ;; attempt_all) w s.
Proof.
  unfold main, startup, before_lock, attempt_all.
  cbn [bind ret Monad_proc]. unfold proc_bind.
  destruct (parse_args w s) as [[[]|?| |] s1]; cbv beta iota; try reflexivity.
  unfold ask, proc_ret. cbv beta iota.
  destruct (image_name w) as [img|]; [|reflexivity].
  destruct (load_settings w s1) as [[[]|?| |] s2]; cbv beta iota;
    try reflexivity.
  destruct (randomize w s2) as [[[]|?| |] s3]; reflexivity.
Qed.

(** ** The state in which the loop starts *)

Lemma randomize_G (w : world F) (s s' : state) o :
  randomize w s = (o, s') -> G s' = G s.
Proof.
  unfold randomize. proc_unfold. destruct (clock_monotonic_nsec w); cbn;
    intros [= _ <-]; reflexivity.
Qed.

Lemma lock_autoupdater_G (w : world F) (s s' : state) o :
  lock_autoupdater w s = (o, s') -> G s' = G s.
Proof.
  unfold lock_autoupdater, flock. proc_unfold.
  destruct (sys_open w _); cbn; [|intros [= _ <-]; reflexivity].
  match goal with
  | |- context [locked_elsewhere w ?f] => destruct (locked_elsewhere w f)
  end; cbn; intros [= _ <-]; reflexivity.
Qed.

Lemma mirrors_loaded_count (g : globals) :
  mirrors_loaded g -> count_live (mirrors g) = n_mirrors g.
Proof.
  intros [H1 H2]. rewrite H2. rewrite H1 at 1.
  rewrite count_live_map_Some, count_live_length_entries.
  rewrite H1 at 2. rewrite length_map, count_live_length_entries.
  reflexivity.
Qed.

(** [load_string_list] sets the length beside each array. *)
Lemma load_settings_lengths (w : world F) (s s' : state) :
  load_settings w s = (Ret tt, s') ->
  n_mirrors (G s') = List.length (mirrors (G s'))
  /\ n_pubkeys (G s') = List.length (pubkeys (G s')).
Proof.
  unfold load_settings, load_positive_number, load_string_list, read_one_line.
  proc_unfold.
  repeat (destruct_innermost; cbn; try discriminate).
  all: intros [= <-]; cbn; rewrite !length_map; auto.
Qed.

(** Whatever [getopt_long] answers, the [switch] ends in [exit]. *)
Lemma parse_args_switch_exits (c : Z) (optarg : option string)
                              (w : world F) (s : state) :
  exists n s', parse_args_switch c optarg w s = (Exit n, s').
Proof.
  unfold parse_args_switch, case_OPTION_BRANCH, case_OPTION_FORCE,
    case_OPTION_FALLBACK, case_OPTION_HELP, case_default, usage.
  repeat destruct_innermost; proc_unfold; eauto.
Qed.

(** [parse_args] returns only when the command line holds no option,
    and then it has changed nothing. *)
Lemma parse_args_returns (w : world F) (s s' : state) :
  parse_args w s = (Ret tt, s') ->
  s' = s
  /\ getopt_long_all (list_ascii_of_string "b:fh") options (argv w) = [].
Proof.
  unfold parse_args. rewrite bind_run. cbn [ask].
  destruct (getopt_long_all _ options (argv w)) as [|[c optarg|e|] rest];
    cbn [parse_args_loop].
  - intros [= <-]. auto.
  - rewrite bind_run.
    destruct (parse_args_switch_exits c optarg w s) as (n & s1 & ->).
    discriminate.
  - rewrite bind_run. cbn [ask]. rewrite bind_run. cbn [fputs_stderr emit].
    rewrite bind_run.
    match goal with
    | |- context [parse_args_switch ?c ?o w ?s0] =>
        destruct (parse_args_switch_exits c o w s0) as (n & s1 & ->)
    end.
    discriminate.
  - discriminate.
Qed.

Lemma startup_returns (w : world F) (s s1 : state) :
  startup w s = (Ret tt, s1) ->
  n_mirrors (G s1) = List.length (mirrors (G s1))
  /\ force (G s1) = force (G s)
  /\ fallback (G s1) = fallback (G s)
  /\ exists evs, trace s1 = trace s ++ evs /\ Forall startup_event evs.
Proof.
  intros H.
  assert (Hev : exists evs, trace s1 = trace s ++ evs /\ Forall startup_event evs).
  { destruct (behaves_startup w s) as (evs & Ht & HP & _).
    rewrite H in Ht. eauto. }
  revert H. unfold startup, before_lock. rewrite bind_run, bind_run.
  destruct (parse_args w s) as [[[]|?| |] s2] eqn:Hp; try discriminate.
  apply parse_args_returns in Hp. destruct Hp as [-> _].
  rewrite bind_run. cbn [ask]. rewrite bind_run.
  destruct (image_name w); [|proc_unfold; discriminate].
  cbn [ret Monad_proc proc_ret]. rewrite bind_run.
  destruct (load_settings w s) as [[[]|?| |] s3] eqn:Hl; try discriminate.
  destruct (randomize w s3) as [[[]|?| |] s4] eqn:Hr; try discriminate.
  intros Hk.
  apply lock_autoupdater_G in Hk. apply randomize_G in Hr.
  rewrite Hk, Hr.
  split; [exact (proj1 (load_settings_lengths _ _ _ Hl))|].
  split; [|split; [|exact Hev]].
  - revert Hl. clear.
    unfold load_settings, load_positive_number, load_string_list, read_one_line.
    proc_unfold.
    repeat (destruct_innermost; cbn; try discriminate).
    all: intros [= <-]; reflexivity.
  - revert Hl. clear.
    unfold load_settings, load_positive_number, load_string_list, read_one_line.
    proc_unfold.
    repeat (destruct_innermost; cbn; try discriminate).
    all: intros [= <-]; reflexivity.
Qed.

(** Started with an array that has no NULL entry, the part of [main]
    behind the lock calls [autoupdate] once for every entry, in some
    order, says that no mirror was usable and returns 1. *)
Lemma attempt_all_spec (w : world F) (s : state) :
  mirrors_loaded (G s) ->
  exists tried s',
    attempt_all w s = (Ret 1%Z, s')
    /\ trace s' = trace s ++ map EvAutoupdate tried ++ [EvStderr no_mirror_text]
    /\ Permutation tried (live_entries (mirrors (G s)))
    /\ count_live (mirrors (G s')) = 0
    /\ random_calls s' = random_calls s + n_mirrors (G s).
Proof.
  intros HL.
  destruct (mirror_loop_spec w (n_mirrors (G s)) s (mirrors_loaded_count _ HL))
    as (s' & tried & Hloop & Htr & Hperm & Hz & _ & Hcalls).
  exists tried. eexists.
  unfold attempt_all. rewrite bind_run. cbn [getG].
  rewrite bind_run, Hloop. proc_unfold.
  split; [reflexivity|]. cbn.
  rewrite Htr, <- app_assoc. auto.
Qed.

Lemma count_live_le_length (a : list (option string)) :
  count_live a <= List.length a.
Proof. induction a as [|[m|] a IH]; simpl; lia. Qed.

(** An array of [n] entries with [n] live ones has no NULL entry. *)
Lemma count_live_full (a : list (option string)) :
  count_live a = List.length a -> a = map Some (live_entries a).
Proof.
  induction a as [|[m|] a IH]; simpl; intros H.
  - reflexivity.
  - f_equal. apply IH. lia.
  - pose proof (count_live_le_length a). lia.
Qed.

(** The loop entered with [mirrors_left] above the number of live
    entries: some walk runs past the end of the array. *)
Lemma mirror_loop_undefined (w : world F) (n : nat) :
  forall s, count_live (mirrors (G s)) < n ->
  fst (mirror_loop n w s) = Undefined.
Proof.
  induction n as [|k IH]; intros s Hn; [lia|].
  change (mirror_loop (S k) w s)
    with ((loop_body (S k) ;; mirror_loop k) w s).
  rewrite bind_run.
  unfold loop_body at 1. rewrite bind_run. cbn [getG].
  rewrite bind_run. unfold random at 1. cbn [G].
  fold (drawn_index w s (S k)).
  destruct (move_forward (mirrors (G s)) 0 (drawn_index w s (S k)))
    as [[pos m]|] eqn:Hm; [|reflexivity].
  destruct (move_forward_inv _ _ _ _ _ Hm) as (p & -> & Hnth & _).
  proc_unfold. unfold autoupdate. proc_unfold.
  apply IH. cbn.
  pose proof (count_live_array_set _ _ _ Hnth). lia.
Qed.

(** The loop never ends the process and never sleeps. *)
Lemma mirror_loop_outcome (w : world F) (n : nat) :
  forall s, match fst (mirror_loop n w s) with
            | Ret _ | Undefined => True
            | Exit _ | Blocked => False
            end.
Proof.
  induction n as [|k IH]; intros s; [exact I|].
  change (mirror_loop (S k) w s)
    with ((loop_body (S k) ;; mirror_loop k) w s).
  rewrite bind_run.
  unfold loop_body at 1. rewrite bind_run. cbn [getG].
  rewrite bind_run. unfold random at 1. cbn [G].
  fold (drawn_index w s (S k)).
  destruct (move_forward (mirrors (G s)) 0 (drawn_index w s (S k)))
    as [[pos m]|]; [|exact I].
  proc_unfold. unfold autoupdate. proc_unfold. apply IH.
Qed.

(** Once the lock is held, [main] returns 1 or runs a walk off the
    array; it cannot end with another status. *)
Lemma attempt_all_outcome (w : world F) (s : state) :
  fst (attempt_all w s) = Ret 1%Z \/ fst (attempt_all w s) = Undefined.
Proof.
  unfold attempt_all. rewrite !bind_run. cbn [getG]. rewrite !bind_run.
  pose proof (mirror_loop_outcome w (n_mirrors (G s)) s) as H.
  destruct (mirror_loop (n_mirrors (G s)) w s) as [[[]|?| |] s'];
    cbn in H; try contradiction; auto.
Qed.

Lemma attempt_all_undefined (w : world F) (s : state) :
  count_live (mirrors (G s)) < n_mirrors (G s) ->
  fst (attempt_all w s) = Undefined.
Proof.
  intros H. unfold attempt_all. rewrite bind_run. cbn [getG].
  rewrite bind_run.
  pose proof (mirror_loop_undefined w (n_mirrors (G s)) s H) as Hu.
  destruct (mirror_loop (n_mirrors (G s)) w s) as [[[]|?| |] s'];
    cbn in Hu; try discriminate; reflexivity.
Qed.

End MainFacts.

(* ===================================================================== *)
(** * Reading a trace *)
(* ===================================================================== *)

Lemma attempts_of_app (t u : list event) :
  attempts_of (t ++ u) = attempts_of t ++ attempts_of u.
Proof. apply flat_map_app. Qed.

Lemma stderr_of_app (t u : list event) :
  stderr_of (t ++ u) = stderr_of t ++ stderr_of u.
Proof. apply flat_map_app. Qed.

Lemma execs_of_app (t u : list event) :
  execs_of (t ++ u) = execs_of t ++ execs_of u.
Proof. apply flat_map_app. Qed.

Lemma flocks_of_app (t u : list event) :
  flocks_of (t ++ u) = flocks_of t ++ flocks_of u.
Proof. apply flat_map_app. Qed.

Lemma attempts_of_calls (l : list string) :
  attempts_of (map EvAutoupdate l) = l.
Proof. induction l as [|m l IH]; simpl; congruence. Qed.

Lemma stderr_of_calls (l : list string) :
  stderr_of (map EvAutoupdate l) = [].
Proof. induction l as [|m l IH]; simpl; auto. Qed.

Lemma attempts_of_startup (t : list event) :
  Forall startup_event t -> attempts_of t = [].
Proof.
  induction 1 as [|e t He _ IH]; simpl; auto.
  destruct e; simpl in *; auto; contradiction.
Qed.

Lemma execs_of_not_exec (t : list event) :
  Forall not_exec t -> execs_of t = [].
Proof.
  induction 1 as [|e t He _ IH]; simpl; auto.
  destruct e; simpl in *; auto; contradiction.
Qed.

Lemma flocks_of_before_lock (t : list event) :
  Forall before_lock_event t -> flocks_of t = [].
Proof.
  induction 1 as [|e t He _ IH]; simpl; auto.
  destruct e; simpl in *; auto; contradiction.
Qed.

(* ===================================================================== *)
(** * Properties of the mirror loop *)
(* ===================================================================== *)

Lemma in_None_count_live (a : list (option string)) :
  In None a -> count_live a < List.length a.
Proof.
  induction a as [|[m|] a IH]; simpl; intros H.
  - contradiction.
  - destruct H as [H|H]; [discriminate|]. specialize (IH H). lia.
  - pose proof (count_live_le_length a). lia.
Qed.


Lemma not_in_None_count_live (a : list (option string)) :
  ~ In None a -> count_live a = List.length a.
Proof.
  induction a as [|[m|] a IH]; simpl; intros H.
  - reflexivity.
  - f_equal. apply IH. tauto.
  - exfalso. apply H. left. reflexivity.
Qed.


(** When start-up returns with an array that has no NULL entry, the
    array is as the loop expects it. *)
Lemma startup_loaded {F : Type} (w : world F) (s1 : state) :
  startup w state0 = (Ret tt, s1) ->
  ~ In None (mirrors (G s1)) ->
  mirrors_loaded (G s1).
Proof.
  intros Hs Hn.
  destruct (startup_returns w state0 s1 Hs) as (HL & _).
  split; [|exact HL].
  apply count_live_full, not_in_None_count_live, Hn.
Qed.

Lemma startup_null_entry {F : Type} (w : world F) (s1 : state) :
  startup w state0 = (Ret tt, s1) ->
  In None (mirrors (G s1)) ->
  count_live (mirrors (G s1)) < n_mirrors (G s1).
Proof.
  intros Hs Hn.
  destruct (startup_returns w state0 s1 Hs) as (HL & _).
  rewrite HL. apply in_None_count_live, Hn.
Qed.

Lemma run_after_startup {F : Type} (w : world F) (s1 : state) :
  startup w state0 = (Ret tt, s1) -> run w = attempt_all w s1.
Proof. intros Hs. unfold run. rewrite main_startup, bind_run, Hs. reflexivity. Qed.

(** The loop entered with an array of N candidates. *)
Lemma attempt_all_tries_all {F : Type} (w : world F) (s : state) :
  mirrors_loaded (G s) ->
  exists (tried : list string) (s' : state),
    attempt_all w s = (Ret 1%Z, s')
    /\ attempts_of (trace s') = attempts_of (trace s) ++ tried
    /\ Permutation tried (live_entries (mirrors (G s)))
    /\ List.length tried = n_mirrors (G s)
    /\ last (stderr_of (trace s')) "" = no_mirror_text
    /\ count_live (mirrors (G s')) = 0.
Proof.
  intros HL.
  destruct (attempt_all_spec w s HL) as (tried & s' & Ha & Htr & Hperm & Hz & _).
  exists tried, s'. split; [exact Ha|].
  rewrite Htr, !app_assoc, attempts_of_app, stderr_of_app.
  rewrite attempts_of_app, attempts_of_calls. cbn. rewrite app_nil_r.
  repeat split; auto.
  - rewrite (Permutation_length Hperm), count_live_length_entries.
    apply mirrors_loaded_count, HL.
  - apply last_last.
Qed.

(** A NULL entry in the array start-up leaves behind: the run of [main]
    has no defined behaviour. *)
Lemma run_with_null_entry {F : Type} (w : world F) (s1 : state) :
  startup w state0 = (Ret tt, s1) ->
  In None (mirrors (G s1)) ->
  fst (run w) = Undefined.
Proof.
  intros Hs Hn. rewrite (run_after_startup w s1 Hs).
  apply attempt_all_undefined, (startup_null_entry w s1 Hs Hn).
Qed.

(** C7.  The loop of [main], entered with an array of N candidate
    mirrors, none of them NULL, and with [G.n_mirrors = N], calls
    [autoupdate] exactly N times, once for each candidate -- the mirrors
    tried are a permutation of the candidates --, after which [main]
    writes "no usable mirror found" and returns 1; so does a run of
    [main] in which start-up leaves such an array behind.  The array of
    a run is the one [load_string_list] has filled from the fields
    [v.string] of the list items: as soon as one of them is NULL, the
    loop starts with [mirrors_left] above the number of candidates, a
    walk runs past the end of the array, and the run does not end with
    status 1. *)
Theorem main_tries_every_mirror_once :
  forall (F : Type) (w : world F),
    (forall s : state,
       mirrors_loaded (G s) ->
       exists (tried : list string) (s' : state),
         attempt_all w s = (Ret 1%Z, s')
         /\ attempts_of (trace s') = attempts_of (trace s) ++ tried
         /\ Permutation tried (live_entries (mirrors (G s)))
         /\ List.length tried = n_mirrors (G s)
         /\ last (stderr_of (trace s')) "" = no_mirror_text)
    /\ (forall s1 : state,
          startup w state0 = (Ret tt, s1) ->
          ~ In None (mirrors (G s1)) ->
          exists tried : list string,
            attempts_of (trace (snd (run w))) = tried
            /\ Permutation tried (live_entries (mirrors (G s1)))
            /\ List.length tried = n_mirrors (G s1)
            /\ last (stderr_of (trace (snd (run w)))) "" = no_mirror_text
            /\ fst (run w) = Ret 1%Z)
    /\ (forall s1 : state,
          startup w state0 = (Ret tt, s1) ->
          In None (mirrors (G s1)) ->
          count_live (mirrors (G s1)) < n_mirrors (G s1)
          /\ fst (run w) = Undefined
          /\ exit_status (fst (run w)) = None).
Proof.
  intros F w. split; [|split].
  - intros s HL.
    destruct (attempt_all_tries_all w s HL)
      as (tried & s' & Ha & Ht & Hp & Hl & Hlast & _).
    exists tried, s'. auto.
  - intros s1 Hs Hn.
    destruct (attempt_all_tries_all w s1 (startup_loaded w s1 Hs Hn))
      as (tried & s' & Ha & Ht & Hp & Hl & Hlast & _).
    destruct (startup_returns w state0 s1 Hs) as (_ & _ & _ & evs & Hev & HP).
    exists tried. rewrite (run_after_startup w s1 Hs), Ha. cbn [fst snd].
    rewrite Ht, Hev. cbn [trace state0 app].
    rewrite (attempts_of_startup _ HP). auto.
  - intros s1 Hs Hn.
    pose proof (run_with_null_entry w s1 Hs Hn) as Hu.
    split; [exact (startup_null_entry w s1 Hs Hn)|].
    split; [exact Hu|]. rewrite Hu. reflexivity.
Qed.

Lemma main_tries_every_mirror_once_witness :
  (mirrors_loaded (G (Device.loop_entry ["m1"; "m2"; "m3"]))
   /\ exists (tried : list string) (s' : state),
        attempt_all (Device.device [] ["m1"; "m2"; "m3"] false 1000 1000)
          (Device.loop_entry ["m1"; "m2"; "m3"]) = (Ret 1%Z, s')
        /\ attempts_of (trace s')
           = attempts_of (trace (Device.loop_entry ["m1"; "m2"; "m3"])) ++ tried
        /\ Permutation tried
             (live_entries (mirrors (G (Device.loop_entry ["m1"; "m2"; "m3"]))))
        /\ List.length tried
           = n_mirrors (G (Device.loop_entry ["m1"; "m2"; "m3"]))
        /\ last (stderr_of (trace s')) "" = no_mirror_text)
  /\ (startup (Device.device [] ["m1"] false 1000 1000) state0
      = (Ret tt, Device.booted ["m1"])
      /\ In None (mirrors (G (Device.booted ["m1"])))
      /\ count_live (mirrors (G (Device.booted ["m1"])))
         < n_mirrors (G (Device.booted ["m1"]))
      /\ fst (run (Device.device [] ["m1"] false 1000 1000)) = Undefined
      /\ exit_status (fst (run (Device.device [] ["m1"] false 1000 1000)))
         = None).
Proof.
  split.
  - split; [split; reflexivity|].
    apply (proj1 (main_tries_every_mirror_once _
                    (Device.device [] ["m1"; "m2"; "m3"] false 1000 1000))).
    split; reflexivity.
  - split; [reflexivity|]. split; [left; reflexivity|].
    apply (proj2 (proj2 (main_tries_every_mirror_once _
                           (Device.device [] ["m1"] false 1000 1000)))
                 (Device.booted ["m1"])).
    + reflexivity.
    + left. reflexivity.
Defined.

(** C10.  Every round of the loop keeps the invariant: entered with
    [mirrors_left] equal to the number of non-NULL entries of
    [G.mirrors] and not zero, the walk with [i = r % mirrors_left] stops
    inside the array on a non-NULL entry for every value [r] of
    [random()], and the round ends with both numbers one less.  In a run
    of [main] the invariant therefore holds at every loop head when the
    array start-up leaves behind has no NULL entry.  It fails at the
    first loop head when that array has a NULL entry, as it has when
    [load_string_list] has read a field [v.string] that is NULL:
    [mirrors_left] is above the number of non-NULL entries, there are
    values of [random()] for which the walk advances past the end of the
    array, and the run has no defined behaviour. *)
Theorem mirrors_left_counts_live_entries :
  forall (F : Type) (w : world F),
    (forall (mirrors_left : nat) (s : state),
       mirrors_left = count_live (mirrors (G s)) ->
       mirrors_left <> 0 ->
       (forall r : Z,
          exists pos m,
            move_forward (mirrors (G s)) 0
              (Z.to_nat (r mod Z.of_nat mirrors_left)) = Some (pos, m)
            /\ pos < List.length (mirrors (G s))
            /\ nth_error (mirrors (G s)) pos = Some (Some m))
       /\ exists s',
            loop_body mirrors_left w s = (Ret tt, s')
            /\ Nat.pred mirrors_left = count_live (mirrors (G s')))
    /\ (forall s1 : state,
          startup w state0 = (Ret tt, s1) ->
          ~ In None (mirrors (G s1)) ->
          forall (mirrors_left : nat) (s : state),
            loop_head w mirrors_left s ->
            mirrors_left = count_live (mirrors (G s)))
    /\ (forall s1 : state,
          startup w state0 = (Ret tt, s1) ->
          In None (mirrors (G s1)) ->
          loop_head w (n_mirrors (G s1)) s1
          /\ count_live (mirrors (G s1)) < n_mirrors (G s1)
          /\ (exists r : Z,
                (0 <= r)%Z
                /\ move_forward (mirrors (G s1)) 0
                     (Z.to_nat (r mod Z.of_nat (n_mirrors (G s1)))) = None)
          /\ fst (run w) = Undefined).
Proof.
  intros F w. split; [|split].
  - intros k s Hk Hnz. destruct k as [|k]; [contradiction|]. split.
    + intros r.
      destruct (move_forward_some (mirrors (G s)) 0
                  (Z.to_nat (r mod Z.of_nat (S k)))) as (p & m & Hm & Hn & _).
      { rewrite <- Hk.
        pose proof (Z.mod_pos_bound r (Z.of_nat (S k)) ltac:(lia)). lia. }
      exists p, m. simpl in Hm.
      repeat split; auto. eapply nth_error_live_bound; eauto.
    + symmetry in Hk.
      destruct (loop_body_spec w s k Hk) as (pos & m & _ & Hn & _ & Hb).
      exists (after_attempt s pos m). split; [exact Hb|].
      symmetry. apply (after_attempt_live _ _ _ _ Hk Hn).
  - intros s1 Hs Hnn k s H.
    induction H as [s Hs'|k s s' Hhead IH Hbody].
    + rewrite Hs in Hs'. injection Hs' as <-.
      symmetry. apply mirrors_loaded_count, (startup_loaded w s1 Hs Hnn).
    + symmetry in IH.
      destruct (loop_body_spec w s k IH) as (pos & m & _ & Hn & _ & Hb).
      rewrite Hb in Hbody. injection Hbody as <-.
      symmetry. apply (after_attempt_live _ _ _ _ IH Hn).
  - intros s1 Hs Hn.
    pose proof (startup_null_entry w s1 Hs Hn) as Hlt.
    split; [apply loop_head_first, Hs|]. split; [exact Hlt|].
    split; [|exact (run_with_null_entry w s1 Hs Hn)].
    exists (Z.of_nat (n_mirrors (G s1)) - 1)%Z. split; [lia|].
    apply move_forward_none.
    rewrite Z.mod_small by lia. lia.
Qed.

Lemma mirrors_left_counts_live_entries_witness :
  startup (Device.device [] ["m1"] false 1000 1000) state0
  = (Ret tt, Device.booted ["m1"])
  /\ In None (mirrors (G (Device.booted ["m1"])))
  /\ loop_head (Device.device [] ["m1"] false 1000 1000)
       (n_mirrors (G (Device.booted ["m1"]))) (Device.booted ["m1"])
  /\ count_live (mirrors (G (Device.booted ["m1"])))
     < n_mirrors (G (Device.booted ["m1"]))
  /\ (exists r : Z,
        (0 <= r)%Z
        /\ move_forward (mirrors (G (Device.booted ["m1"]))) 0
             (Z.to_nat (r mod Z.of_nat (n_mirrors (G (Device.booted ["m1"])))))
           = None)
  /\ fst (run (Device.device [] ["m1"] false 1000 1000)) = Undefined.
Proof.
  split; [reflexivity|]. split; [left; reflexivity|].
  apply (proj2 (proj2 (mirrors_left_counts_live_entries _
                         (Device.device [] ["m1"] false 1000 1000)))
               (Device.booted ["m1"])).
  - reflexivity.
  - left. reflexivity.
Defined.

Lemma behaves_attempt_all {F : Type} : behaves (F := F) not_exec attempt_all.
Proof.
  unfold attempt_all.
  apply behaves_bind; [apply behaves_getG|intros n].
  apply behaves_bind; [apply behaves_mirror_loop|intros _].
  repeat behaves_step; exact I.
Qed.

Lemma behaves_main {F : Type} (w : world F) (s : state) :
  exists evs,
    trace (snd (main w s)) = trace s ++ evs
    /\ Forall not_exec evs
    /\ (forall n, fst (main w s) = Exit n -> n = 0%Z \/ n = 1%Z)
    /\ (fst (main w s) = Exit 0%Z ->
        In (EvStderr usage_text) evs \/ In (EvStderr disabled_text) evs).
Proof.
  rewrite main_startup.
  apply (behaves_bind not_exec startup (fun _ => attempt_all)).
  - apply (behaves_weaken startup_event); [apply startup_not_exec|].
    apply behaves_startup.
  - intros _. apply behaves_attempt_all.
Qed.

Lemma in_stderr_of (t : list event) (text : string) :
  In (EvStderr text) t -> In text (stderr_of t).
Proof.
  intros H. unfold stderr_of. apply in_flat_map.
  exists (EvStderr text). split; [exact H|]. left. reflexivity.
Qed.

(** A run that ends with status 0 has ended in the option parser or in
    [load_settings], before any mirror was tried. *)
Lemma run_status_0 {F : Type} (w : world F) :
  exit_status (fst (run w)) = Some 0%Z ->
  fst (run w) = Exit 0%Z
  /\ attempts_of (trace (snd (run w))) = []
  /\ (In usage_text (stderr_of (trace (snd (run w))))
      \/ In disabled_text (stderr_of (trace (snd (run w))))).
Proof.
  unfold run. rewrite main_startup, bind_run.
  destruct (behaves_startup w state0) as (evs & Ht & Hev & _ & H0).
  destruct (startup w state0) as [[[]|n| |] s1] eqn:Hs;
    cbn [fst snd exit_status] in *; try discriminate.
  - destruct (attempt_all_outcome w s1) as [E|E]; rewrite E; discriminate.
  - intros [= ->]. split; [reflexivity|].
    rewrite Ht. cbn [trace state0 app].
    split; [apply attempts_of_startup, Hev|].
    destruct (H0 eq_refl) as [H|H]; [left|right]; apply in_stderr_of, H.
Qed.

(** Once start-up has returned, the run cannot end with status 0. *)
Lemma run_after_startup_status {F : Type} (w : world F) (s1 : state) :
  startup w state0 = (Ret tt, s1) ->
  exit_status (fst (run w)) <> Some 0%Z.
Proof.
  intros Hs. rewrite (run_after_startup w s1 Hs).
  destruct (attempt_all_outcome w s1) as [E|E]; rewrite E; discriminate.
Qed.

(** C2 (as the code has it).  [autoupdate] has an empty body: it runs
    no download, verification or upgrade hook and reports no outcome, so
    no mirror can end the loop.  A run of [main] starts no external
    program at all, and once start-up has returned it cannot end with
    status 0.  Entered with an array of N mirrors, none of them NULL,
    the loop calls [autoupdate] N times -- 3 calls for 3 mirrors --,
    leaves no mirror untried, and [main] returns 1. *)
Theorem main_runs_no_hook :
  forall (F : Type) (w : world F),
    (forall (mirror : string) (s : state),
       fst (autoupdate mirror w s) = Ret tt
       /\ G (snd (autoupdate mirror w s)) = G s
       /\ trace (snd (autoupdate mirror w s)) = trace s ++ [EvAutoupdate mirror])
    /\ execs_of (trace (snd (run w))) = []
    /\ (forall s1 : state,
          startup w state0 = (Ret tt, s1) ->
          exit_status (fst (run w)) <> Some 0%Z)
    /\ (forall s : state,
          mirrors_loaded (G s) ->
          exists s' : state,
            attempt_all w s = (Ret 1%Z, s')
            /\ List.length (attempts_of (trace s'))
               = List.length (attempts_of (trace s)) + n_mirrors (G s)
            /\ count_live (mirrors (G s')) = 0
            /\ execs_of (trace s') = execs_of (trace s)).
Proof.
  intros F w. split; [|split; [|split]].
  - intros mirror s. repeat split.
  - unfold run. destruct (behaves_main w state0) as (evs & Ht & HP & _).
    rewrite Ht. cbn [trace state0 app]. apply execs_of_not_exec, HP.
  - intros s1. apply run_after_startup_status.
  - intros s HL.
    destruct (attempt_all_tries_all w s HL)
      as (tried & s' & Ha & Ht & _ & Hl & _ & Hz).
    exists s'. split; [exact Ha|].
    split; [rewrite Ht, length_app, Hl; reflexivity|].
    split; [exact Hz|].
    destruct (behaves_attempt_all w s) as (evs & Hev & HP & _).
    rewrite Ha in Hev. cbn [snd] in Hev.
    rewrite Hev, execs_of_app, (execs_of_not_exec _ HP), app_nil_r.
    reflexivity.
Qed.

Lemma main_runs_no_hook_witness :
  mirrors_loaded (G (Device.loop_entry ["m1"; "m2"; "m3"]))
  /\ exists s' : state,
       attempt_all (Device.device [] ["m1"; "m2"; "m3"] false 1000 1000)
         (Device.loop_entry ["m1"; "m2"; "m3"]) = (Ret 1%Z, s')
       /\ List.length (attempts_of (trace s'))
          = List.length (attempts_of (trace (Device.loop_entry ["m1"; "m2"; "m3"])))
            + n_mirrors (G (Device.loop_entry ["m1"; "m2"; "m3"]))
       /\ count_live (mirrors (G s')) = 0
       /\ execs_of (trace s')
          = execs_of (trace (Device.loop_entry ["m1"; "m2"; "m3"])).
Proof.
  split; [split; reflexivity|].
  apply (proj2 (proj2 (proj2 (main_runs_no_hook _
           (Device.device [] ["m1"; "m2"; "m3"] false 1000 1000))))).
  split; reflexivity.
Defined.

(** C2 fails as stated.  Entered with three mirrors, the loop calls
    [autoupdate] three times, starts no hook, and [main] returns 1, not
    success.  A run of [main] on a device configured with three mirrors
    does not report success either: [load_string_list] having stored
    three NULL entries, the first walk leaves the array; no hook was
    started and the run does not end with status 0. *)
Lemma three_mirrors_end_in_failure :
  (fst (attempt_all (Device.device [] ["m1"; "m2"; "m3"] false 1000 1000)
          (Device.loop_entry ["m1"; "m2"; "m3"])) = Ret 1%Z
   /\ List.length (attempts_of (trace (snd
        (attempt_all (Device.device [] ["m1"; "m2"; "m3"] false 1000 1000)
           (Device.loop_entry ["m1"; "m2"; "m3"]))))) = 3
   /\ execs_of (trace (snd
        (attempt_all (Device.device [] ["m1"; "m2"; "m3"] false 1000 1000)
           (Device.loop_entry ["m1"; "m2"; "m3"])))) = [])
  /\ (mirrors (G (Device.booted ["m1"; "m2"; "m3"])) = [None; None; None]
      /\ fst (run (Device.device [] ["m1"; "m2"; "m3"] false 1000 1000))
         = Undefined
      /\ exit_status (fst (run (Device.device [] ["m1"; "m2"; "m3"] false 1000 1000)))
         <> Some 0%Z
      /\ execs_of (trace (snd
           (run (Device.device [] ["m1"; "m2"; "m3"] false 1000 1000)))) = []).
Proof. vm_compute. repeat split; discriminate. Qed.

(* ===================================================================== *)
(** * The lock *)
(* ===================================================================== *)

(** C9.  When the lock file can be opened and another process holds the
    lock on it, [lock_autoupdater] calls [flock] once, with [LOCK_NB]
    set, does not sleep, writes "another instance is currently running"
    and exits with status 1; a run of [main] that gets as far as the lock
    then ends with status 1 without a single call of [autoupdate]. *)
Theorem lock_held_elsewhere_fails_at_once :
  forall (F : Type) (w : world F) (fd : Z),
    sys_open w "/var/run/autoupdater.lock" = inl fd ->
    locked_elsewhere w "/var/run/autoupdater.lock" = true ->
    (forall s : state,
       lock_autoupdater w s
       = (Exit 1%Z,
          {| G := G s;
             trace := trace s ++
                      [EvOpen "/var/run/autoupdater.lock" (Z.lor O_CREAT O_RDONLY) 438;
                       EvFlock fd (Z.lor LOCK_EX LOCK_NB);
                       EvStderr already_running_text];
             random_seed := random_seed s;
             random_calls := random_calls s |}))
    /\ Z.land (Z.lor LOCK_EX LOCK_NB) LOCK_NB = LOCK_NB
    /\ (forall s1 : state,
          before_lock w state0 = (Ret tt, s1) ->
          fst (run w) = Exit 1%Z
          /\ attempts_of (trace (snd (run w))) = []
          /\ flocks_of (trace (snd (run w))) = [(fd, Z.lor LOCK_EX LOCK_NB)]
          /\ last (stderr_of (trace (snd (run w)))) "" = already_running_text).
Proof.
  intros F w fd Hopen Hheld.
  assert (Hlock : forall s : state,
       lock_autoupdater w s
       = (Exit 1%Z,
          {| G := G s;
             trace := trace s ++
                      [EvOpen "/var/run/autoupdater.lock" (Z.lor O_CREAT O_RDONLY) 438;
                       EvFlock fd (Z.lor LOCK_EX LOCK_NB);
                       EvStderr already_running_text];
             random_seed := random_seed s;
             random_calls := random_calls s |})).
  { intros s. unfold lock_autoupdater, flock. proc_unfold.
    rewrite Hopen. cbn. rewrite Hheld. cbn.
    rewrite <- !app_assoc. reflexivity. }
  split; [exact Hlock|]. split; [reflexivity|].
  intros s1 Hb.
  destruct (behaves_before_lock w state0) as (evs & Ht & Hev & _).
  rewrite Hb in Ht. cbn [snd trace state0 app] in Ht.
  unfold run. rewrite main_startup, bind_run.
  unfold startup. rewrite bind_run, Hb, Hlock. cbn [fst snd trace].
  rewrite Ht, !attempts_of_app, !flocks_of_app, !stderr_of_app.
  rewrite (flocks_of_before_lock _ Hev).
  rewrite (attempts_of_startup evs).
  2:{ eapply Forall_impl; [apply before_lock_startup_event|exact Hev]. }
  repeat split.
  change (stderr_of [EvOpen "/var/run/autoupdater.lock" (Z.lor O_CREAT O_RDONLY) 438;
                     EvFlock fd (Z.lor LOCK_EX LOCK_NB);
                     EvStderr already_running_text])
    with ([] ++ [already_running_text]).
  rewrite app_nil_l. apply last_last.
Qed.

Lemma lock_held_elsewhere_fails_at_once_witness :
  sys_open (Device.device [] ["m1"; "m2"; "m3"] true 1000 1000)
    "/var/run/autoupdater.lock" = inl 3%Z
  /\ locked_elsewhere (Device.device [] ["m1"; "m2"; "m3"] true 1000 1000)
       "/var/run/autoupdater.lock" = true
  /\ fst (run (Device.device [] ["m1"; "m2"; "m3"] true 1000 1000)) = Exit 1%Z
  /\ attempts_of (trace (snd
       (run (Device.device [] ["m1"; "m2"; "m3"] true 1000 1000)))) = []
  /\ flocks_of (trace (snd
       (run (Device.device [] ["m1"; "m2"; "m3"] true 1000 1000))))
     = [(3%Z, Z.lor LOCK_EX LOCK_NB)]
  /\ last (stderr_of (trace (snd
       (run (Device.device [] ["m1"; "m2"; "m3"] true 1000 1000))))) ""
     = already_running_text.
Proof.
  split; [reflexivity|]. split; [reflexivity|].
  apply (proj2 (proj2 (lock_held_elsewhere_fails_at_once _
           (Device.device [] ["m1"; "m2"; "m3"] true 1000 1000) 3%Z
           eq_refl eq_refl))
           (snd (before_lock
                   (Device.device [] ["m1"; "m2"; "m3"] true 1000 1000) state0))).
  reflexivity.
Defined.

(* ===================================================================== *)
(** * The command line *)
(* ===================================================================== *)

(** C3 (what the code does).  Given [--force] or [-f], control enters
    the [switch] at [case OPTION_FORCE] and, no case ending in [break],
    runs on through [case OPTION_FALLBACK] and [case OPTION_HELP]:
    [parse_args] sets [G.force] and also [G.fallback], prints the usage
    text and exits with status 0, so that [main] ends there. *)
Theorem force_option_falls_through :
  forall (F : Type) (w : world F),
    argv w = ["--force"] \/ argv w = ["-f"] ->
    (forall s : state,
       parse_args w s
       = (Exit 0%Z,
          {| G := set_fallback true (set_force true (G s));
             trace := trace s ++ [EvStderr usage_text];
             random_seed := random_seed s;
             random_calls := random_calls s |}))
    /\ run w
       = (Exit 0%Z,
          {| G := set_fallback true (set_force true G0);
             trace := [EvStderr usage_text];
             random_seed := 1%Z;
             random_calls := 0 |}).
Proof.
  intros F w Hargv.
  assert (Hp : forall s : state,
       parse_args w s
       = (Exit 0%Z,
          {| G := set_fallback true (set_force true (G s));
             trace := trace s ++ [EvStderr usage_text];
             random_seed := random_seed s;
             random_calls := random_calls s |})).
  { intros s. unfold parse_args. rewrite bind_run. cbn [ask].
    destruct Hargv as [-> | ->]; reflexivity. }
  split; [exact Hp|].
  unfold run, main. rewrite bind_run, Hp. reflexivity.
Qed.

Lemma force_option_falls_through_witness :
  argv (Device.device ["--force"] ["m1"; "m2"; "m3"] false 1000 1000)
  = ["--force"]
  /\ run (Device.device ["--force"] ["m1"; "m2"; "m3"] false 1000 1000)
     = (Exit 0%Z,
        {| G := set_fallback true (set_force true G0);
           trace := [EvStderr usage_text];
           random_seed := 1%Z;
           random_calls := 0 |}).
Proof.
  split; [reflexivity|].
  apply (proj2 (force_option_falls_through _
           (Device.device ["--force"] ["m1"; "m2"; "m3"] false 1000 1000)
           (or_introl eq_refl))).
Defined.

(* ===================================================================== *)
(** * [main] and the probability *)
(* ===================================================================== *)

Lemma clock_free_bind {F A B} (c : @proc F A) (k : A -> @proc F B) :
  clock_free c -> (forall a, clock_free (k a)) -> clock_free (x <- c ;; k x).
Proof.
  intros Hc Hk w now up s. rewrite !bind_run, Hc.
  destruct (c w s) as [[a|n| |] s1]; auto. apply Hk.
Qed.

Ltac clock_free_step :=
  match goal with
  | |- clock_free (bind _ _) => apply clock_free_bind; [|intros ?]
  | |- clock_free (match ?x with _ => _ end) => destruct x
  | |- clock_free _ => intros ? ? ? ?; reflexivity
  end.

Lemma clock_free_parse_args_loop {F} answers :
  clock_free (F := F) (parse_args_loop answers).
Proof.
  induction answers as [|[c optarg|e|] rest IH]; cbn [parse_args_loop].
  - clock_free_step.
  - apply clock_free_bind; [|intros _; exact IH].
    unfold parse_args_switch, case_OPTION_BRANCH, case_OPTION_FORCE,
      case_OPTION_FALLBACK, case_OPTION_HELP, case_default, usage.
    repeat clock_free_step.
  - apply clock_free_bind; [clock_free_step|intros message].
    apply clock_free_bind; [clock_free_step|intros _].
    apply clock_free_bind; [|intros _; exact IH].
    unfold parse_args_switch, case_OPTION_BRANCH, case_OPTION_FORCE,
      case_OPTION_FALLBACK, case_OPTION_HELP, case_default, usage.
    repeat clock_free_step.
  - clock_free_step.
Qed.

Lemma clock_free_mirror_loop {F} n : clock_free (F := F) (mirror_loop n).
Proof.
  induction n as [|n IH]; cbn [mirror_loop].
  - clock_free_step.
  - apply clock_free_bind; [|intros _; exact IH].
    unfold loop_body, autoupdate. repeat clock_free_step.
Qed.

Lemma clock_free_main {F} : clock_free (F := F) main.
Proof.
  unfold main.
  apply clock_free_bind.
  { unfold parse_args. apply clock_free_bind; [clock_free_step|].
    intros args. apply clock_free_parse_args_loop. }
  intros _. apply clock_free_bind; [clock_free_step|intros img].
  apply clock_free_bind; [repeat clock_free_step|intros _].
  apply clock_free_bind.
  { unfold load_settings, load_positive_number, load_string_list,
      read_one_line.
    repeat clock_free_step. }
  intros _. apply clock_free_bind.
  { unfold randomize. repeat clock_free_step. }
  intros _. apply clock_free_bind.
  { unfold lock_autoupdater, flock. repeat clock_free_step. }
  intros _. apply clock_free_bind; [clock_free_step|intros n].
  apply clock_free_bind; [apply clock_free_mirror_loop|intros _].
  repeat clock_free_step.
Qed.

(** C1 (as the code has it).  [main] never calls [get_probability] and
    compares no random number with a probability.  Its run does not
    depend on the wall clock or on the uptime, the two things the
    probability is computed from.  It ends with status 0 only from the
    option parser, after the usage text, or from [load_settings], after
    "autoupdater is disabled", and has then tried no mirror.  A run in
    which start-up succeeds goes on to the mirror loop and cannot end
    with status 0. *)
Theorem main_makes_no_probability_decision :
  forall (F : Type) (w : world F),
    (forall (now : Z) (uptime : option F),
       run (set_clock w now uptime) = run w)
    /\ (exit_status (fst (run w)) = Some 0%Z ->
        fst (run w) = Exit 0%Z
        /\ attempts_of (trace (snd (run w))) = []
        /\ (In usage_text (stderr_of (trace (snd (run w))))
            \/ In disabled_text (stderr_of (trace (snd (run w))))))
    /\ (forall s1 : state,
          startup w state0 = (Ret tt, s1) ->
          run w = attempt_all w s1
          /\ exit_status (fst (run w)) <> Some 0%Z).
Proof.
  intros F w. split; [|split].
  - intros now uptime. apply clock_free_main.
  - apply run_status_0.
  - intros s1 Hs.
    split; [apply run_after_startup, Hs|].
    apply (run_after_startup_status w s1 Hs).
Qed.

Lemma main_makes_no_probability_decision_witness :
  exit_status (fst (run
    (Device.device ["--help"] ["m1"; "m2"; "m3"] false 1000 1000))) = Some 0%Z
  /\ fst (run (Device.device ["--help"] ["m1"; "m2"; "m3"] false 1000 1000))
     = Exit 0%Z
  /\ attempts_of (trace (snd (run
       (Device.device ["--help"] ["m1"; "m2"; "m3"] false 1000 1000)))) = []
  /\ (In usage_text (stderr_of (trace (snd (run
        (Device.device ["--help"] ["m1"; "m2"; "m3"] false 1000 1000)))))
      \/ In disabled_text (stderr_of (trace (snd (run
        (Device.device ["--help"] ["m1"; "m2"; "m3"] false 1000 1000)))))).
Proof.
  split; [reflexivity|].
  apply (proj1 (proj2 (main_makes_no_probability_decision _
           (Device.device ["--help"] ["m1"; "m2"; "m3"] false 1000 1000)))).
  reflexivity.
Defined.

(** C1 fails as stated: the device below has no option on its command
    line, so [G.force] is not set; for a manifest announced at this very
    second with priority 1 the probability is 0, so that any draw from
    [0,1) -- 0 itself, say -- is >= the probability; and yet the run does
    not stop with success before the lock: it takes the lock, goes
    through the mirror loop (the device has no mirror configured) and
    ends with status 1. *)
Lemma decision_is_not_taken :
  fst (get_probability (FO := Device.ops) 1000 (Binary32.of_Z 1)
         (Device.device [] [] false 1000 1000) (Device.booted []))
  = Ret (Binary32.of_Z 0)
  /\ Binary32.geb (Binary32.of_Z 0) (Binary32.of_Z 0) = true
  /\ force (G (Device.booted [])) = false
  /\ flocks_of (trace (snd (run (Device.device [] [] false 1000 1000))))
     = [(3%Z, Z.lor LOCK_EX LOCK_NB)]
  /\ stderr_of (trace (snd (run (Device.device [] [] false 1000 1000))))
     = [no_mirror_text]
  /\ exit_status (fst (run (Device.device [] [] false 1000 1000)))
     = Some 1%Z.
Proof. vm_compute. repeat split. Qed.

(* ===================================================================== *)
(** * Which mirror is selected *)
(* ===================================================================== *)









(* ===================================================================== *)
(** * The update probability *)
(* ===================================================================== *)

Section Probability.

Context {F : Type} {FO : FloatOps F}.

Lemma TIME_T_MAX_nonneg (w : world F) : (0 <= TIME_T_MAX w)%Z.
Proof.
  unfold TIME_T_MAX.
  pose proof (Z.pow_pos_nonneg 2 (Z.pos (time_t_bits w) - 1)
                ltac:(lia) ltac:(lia)).
  lia.
Qed.

(** The three branches taken when the clock is not behind the manifest
    and the difference is a [time_t]. *)
Lemma get_probability_fallback (w : world F) (s : state) (date : Z) (priority : F) :
  (0 <= time_now w - date <= TIME_T_MAX w)%Z ->
  fallback (G s) = true ->
  get_probability date priority w s
  = (Ret (if fge (of_int (time_now w - date))
                 (fadd (rollout_seconds priority) (of_int 86400))
          then of_int 1 else of_int 0), s).
Proof.
  intros Hd Hf. unfold get_probability. proc_unfold.
  destruct (Z.ltb_spec (TIME_T_MAX w) (time_now w - date)); [lia|].
  destruct (Z.ltb_spec (time_now w - date) 0); [lia|].
  rewrite Hf. unfold rollout_seconds.
  destruct (fge _ _); reflexivity.
Qed.

Lemma get_probability_rollout (w : world F) (s : state) (date : Z) (priority : F) :
  (0 <= time_now w - date <= TIME_T_MAX w)%Z ->
  fallback (G s) = false ->
  get_probability date priority w s
  = (Ret (if fge (of_int (time_now w - date)) (rollout_seconds priority)
          then of_int 1
          else polynomial (fdiv (of_int (time_now w - date))
                                (rollout_seconds priority))), s).
Proof.
  intros Hd Hf. unfold get_probability. proc_unfold.
  destruct (Z.ltb_spec (TIME_T_MAX w) (time_now w - date)); [lia|].
  destruct (Z.ltb_spec (time_now w - date) 0); [lia|].
  rewrite Hf. unfold rollout_seconds, polynomial.
  destruct (fge _ _); reflexivity.
Qed.

Lemma get_probability_clock_behind (w : world F) (s : state) (date : Z)
                                   (priority uptime : F) :
  (time_now w - date < 0)%Z ->
  proc_uptime w = Some uptime ->
  get_probability date priority w s
  = (Ret (if flt uptime (of_int 600) then of_int 0
          else powf float_0_75 priority),
     {| G := G s;
        trace := trace s ++ [EvStderr clock_warning_text];
        random_seed := random_seed s;
        random_calls := random_calls s |}).
Proof.
  intros Hd Hu.
  unfold get_probability, get_uptime. proc_unfold.
  pose proof (TIME_T_MAX_nonneg w).
  destruct (Z.ltb_spec (TIME_T_MAX w) (time_now w - date)); [lia|].
  destruct (Z.ltb_spec (time_now w - date) 0); [|lia].
  rewrite Hu. cbn. destruct (flt uptime (of_int 600)); reflexivity.
Qed.

(** A difference above [TIME_T_MAX] is an overflow of the subtraction. *)
Lemma get_probability_overflow (w : world F) (s : state) (date : Z)
                               (priority : F) :
  (TIME_T_MAX w < time_now w - date)%Z ->
  get_probability date priority w s = (Undefined, s).
Proof.
  intros Hd. unfold get_probability. proc_unfold.
  destruct (Z.ltb_spec (TIME_T_MAX w) (time_now w - date)); [reflexivity|lia].
Qed.

End Probability.



(** In exact arithmetic [powf(0.75, n)] is the [n]-th power of 3/4. *)
Lemma exact_powf_0_75 (n : nat) :
  powf (FloatOps := Exact.ops) (float_0_75 (FloatOps := Exact.ops)) (INR n)
  = ((3 / 4) ^ n)%R.
Proof. cbn. apply Rpower_pow. lra. Qed.




(** ** The rollout curve *)

Lemma smoothstep_range (x : R) :
  (0 <= x <= 1)%R -> (0 <= smoothstep x <= 1)%R.
Proof.
  intros [H0 H1]. unfold smoothstep. split.
  - replace (3 * x * x - 2 * x * x * x)%R with (x * x * (3 - 2 * x))%R by ring.
    apply Rmult_le_pos; [apply Rmult_le_pos; lra|lra].
  - assert (H : (0 <= (1 - x) * (1 - x) * (1 + 2 * x))%R).
    { apply Rmult_le_pos; [apply Rmult_le_pos; lra|lra]. }
    replace ((1 - x) * (1 - x) * (1 + 2 * x))%R
      with (1 - (3 * x * x - 2 * x * x * x))%R in H by ring.
    lra.
Qed.

Lemma smoothstep_monotone (x y : R) :
  (0 <= x <= y)%R -> (y <= 1)%R -> (smoothstep x <= smoothstep y)%R.
Proof.
  intros [H0 Hxy] H1. unfold smoothstep.
  assert (Hx2 : (x * x <= x)%R) by nra.
  assert (Hy2 : (y * y <= y)%R) by nra.
  assert (Hp : (2 * (x * y) <= x + y)%R) by nra.
  assert (H : (0 <= (y - x) * (3 * (x + y) - 2 * (x * x + x * y + y * y)))%R).
  { apply Rmult_le_pos; lra. }
  replace ((y - x) * (3 * (x + y) - 2 * (x * x + x * y + y * y)))%R
    with ((3 * y * y - 2 * y * y * y) - (3 * x * x - 2 * x * x * x))%R in H
    by ring.
  lra.
Qed.

Lemma exact_rollout_ratio (priority : R) (d : Z) :
  (0 < priority)%R -> (0 <= d)%Z -> (IZR d < priority * 86400)%R ->
  (0 <= IZR d / (priority * 86400) < 1)%R.
Proof.
  intros Hp Hd Hlt.
  assert (Hs : (0 < priority * 86400)%R) by lra.
  assert (H0 : (0 <= IZR d)%R) by (apply IZR_le in Hd; exact Hd).
  split.
  - apply Rmult_le_pos; [exact H0|]. left. apply Rinv_0_lt_compat, Hs.
  - apply (Rmult_lt_reg_r (priority * 86400)); [exact Hs|].
    unfold Rdiv. rewrite Rmult_assoc, Rinv_l by lra. lra.
Qed.

Lemma exact_rollout_range (priority : R) (d : Z) :
  (0 < priority)%R -> (0 <= d)%Z -> (0 <= exact_rollout priority d <= 1)%R.
Proof.
  intros Hp Hd. unfold exact_rollout.
  destruct (Rge_dec _ _) as [H|H]; [lra|].
  apply smoothstep_range.
  destruct (exact_rollout_ratio priority d Hp Hd); lra.
Qed.

Lemma exact_rollout_monotone (priority : R) (d1 d2 : Z) :
  (0 < priority)%R -> (0 <= d1 <= d2)%Z ->
  (exact_rollout priority d1 <= exact_rollout priority d2)%R.
Proof.
  intros Hp [H1 H12].
  assert (Hle : (IZR d1 <= IZR d2)%R) by (apply IZR_le; exact H12).
  assert (Hs : (0 < priority * 86400)%R) by lra.
  unfold exact_rollout at 2.
  destruct (Rge_dec (IZR d2) _) as [H2|H2].
  - apply exact_rollout_range; assumption.
  - unfold exact_rollout.
    destruct (Rge_dec (IZR d1) _) as [H|H]; [lra|].
    destruct (exact_rollout_ratio priority d1 Hp H1 ltac:(lra)) as [Ha _].
    destruct (exact_rollout_ratio priority d2 Hp ltac:(lia) ltac:(lra))
      as [_ Hb].
    apply smoothstep_monotone; [split; [exact Ha|]|lra].
    unfold Rdiv. apply Rmult_le_compat_r; [|exact Hle].
    left. apply Rinv_0_lt_compat, Hs.
Qed.

Lemma exact_rollout_0 (priority : R) :
  (0 < priority)%R -> exact_rollout priority 0 = 0%R.
Proof.
  intros Hp. unfold exact_rollout.
  destruct (Rge_dec _ _) as [H|H]; [lra|].
  unfold smoothstep, Rdiv. ring.
Qed.

(** In binary32, a zero [diff] against a positive [seconds] takes the
    polynomial branch and gives +0. *)
Lemma binary32_rollout_0 (libm_powf : Binary32.float -> Binary32.float -> Binary32.float)
                         (priority : Binary32.float) :
  Binary32.ltb (Binary32.of_Z 0)
               (Binary32.mul priority (Binary32.of_Z 86400)) = true ->
  (if @fge _ (Binary32.ops libm_powf)
        (@of_int _ (Binary32.ops libm_powf) 0)
        (@rollout_seconds _ (Binary32.ops libm_powf) priority)
   then @of_int _ (Binary32.ops libm_powf) 1
   else @polynomial _ (Binary32.ops libm_powf)
          (@fdiv _ (Binary32.ops libm_powf)
             (@of_int _ (Binary32.ops libm_powf) 0)
             (@rollout_seconds _ (Binary32.ops libm_powf) priority)))
  = Binary32.of_Z 0.
Proof.
  unfold rollout_seconds.
  change (@fmul _ (Binary32.ops libm_powf) priority
            (@of_int _ (Binary32.ops libm_powf) 86400))
    with (Binary32.mul priority (Binary32.of_Z 86400)).
  generalize (Binary32.mul priority (Binary32.of_Z 86400)).
  intros seconds H.
  destruct seconds as [[|]|[|]| |[|] m e]; try discriminate H; reflexivity.
Qed.

(** C6 (as the code has it).  In normal mode and for every
    [diff = now - announcedAt >= 0] that the type [time_t] can hold,
    [get_probability] returns exactly 1 when [diff >= seconds], and
    otherwise the polynomial [3*x*x - 2*x*x*x] at [x = diff / seconds],
    comparison, quotient and polynomial being computed in the type
    [float].  In exact arithmetic this is 1 whenever
    [diff >= priority * 86400], and for every [priority > 0] it is the
    smoothstep polynomial at [diff / (priority * 86400)] below that,
    lies in [0,1], is 0 at [diff = 0] and does not decrease when [diff]
    grows.  In binary32 it is 0 at [diff = 0] whenever [seconds] is
    positive. *)
Theorem rollout_probability :
  (forall (F : Type) (FO : FloatOps F) (w : world F) (s : state)
          (date : Z) (priority : F),
     fallback (G s) = false ->
     (0 <= time_now w - date <= TIME_T_MAX w)%Z ->
     get_probability date priority w s
     = (Ret (if fge (of_int (time_now w - date)) (fmul priority (of_int 86400))
             then of_int 1
             else polynomial (fdiv (of_int (time_now w - date))
                                   (fmul priority (of_int 86400)))), s))
  /\ (forall (w : world R) (s : state) (date : Z) (priority : R),
        fallback (G s) = false ->
        (0 <= time_now w - date <= TIME_T_MAX w)%Z ->
        get_probability (FO := Exact.ops) date priority w s
        = (Ret (exact_rollout priority (time_now w - date)), s))
  /\ (forall (priority : R) (diff : Z),
        (IZR diff >= priority * 86400)%R -> exact_rollout priority diff = 1%R)
  /\ (forall (priority : R) (diff : Z),
        (0 < priority)%R -> (0 <= diff)%Z -> (IZR diff < priority * 86400)%R ->
        exact_rollout priority diff
        = (3 * (IZR diff / (priority * 86400)) * (IZR diff / (priority * 86400))
           - 2 * (IZR diff / (priority * 86400)) * (IZR diff / (priority * 86400))
               * (IZR diff / (priority * 86400)))%R
        /\ (0 <= exact_rollout priority diff <= 1)%R)
  /\ (forall (priority : R) (diff diff' : Z),
        (0 < priority)%R -> (0 <= diff <= diff')%Z ->
        (exact_rollout priority diff <= exact_rollout priority diff')%R)
  /\ (forall priority : R, (0 < priority)%R -> exact_rollout priority 0 = 0%R)
  /\ (forall (libm_powf : Binary32.float -> Binary32.float -> Binary32.float)
             (w : world Binary32.float) (s : state) (date : Z)
             (priority : Binary32.float),
        fallback (G s) = false ->
        time_now w = date ->
        Binary32.ltb (Binary32.of_Z 0)
                     (Binary32.mul priority (Binary32.of_Z 86400)) = true ->
        get_probability (FO := Binary32.ops libm_powf) date priority w s
        = (Ret (Binary32.of_Z 0), s)).
Proof.
  split; [|split; [|split; [|split; [|split; [|split]]]]].
  - intros F FO w s date priority Hf Hd.
    apply (get_probability_rollout w s date priority Hd Hf).
  - intros w s date priority Hf Hd.
    rewrite (get_probability_rollout (FO := Exact.ops) w s date priority Hd Hf).
    unfold exact_rollout. cbn. unfold Exact.geb.
    destruct (Rge_dec _ _); reflexivity.
  - intros priority diff H. unfold exact_rollout.
    destruct (Rge_dec _ _); [reflexivity|contradiction].
  - intros priority diff Hp Hd Hlt. split.
    + unfold exact_rollout.
      destruct (Rge_dec _ _) as [H|H]; [lra|reflexivity].
    + apply exact_rollout_range; assumption.
  - intros priority diff diff' Hp Hd.
    apply exact_rollout_monotone; assumption.
  - apply exact_rollout_0.
  - intros libm_powf w s date priority Hf Hnow Hpos.
    pose proof (TIME_T_MAX_nonneg w) as Hmax.
    rewrite (get_probability_rollout (FO := Binary32.ops libm_powf)
               w s date priority);
      [|rewrite Hnow; lia|exact Hf].
    rewrite Hnow, Z.sub_diag.
    rewrite (binary32_rollout_0 libm_powf priority Hpos). reflexivity.
Qed.

Lemma rollout_probability_witness :
  fallback (G state0) = false
  /\ (0 <= time_now (Device.device [] [] false 44200 1000) - 1000
      <= TIME_T_MAX (Device.device [] [] false 44200 1000))%Z
  /\ get_probability (FO := Device.ops) 1000 (Binary32.of_Z 1)
       (Device.device [] [] false 44200 1000) state0
     = (Ret (if Binary32.geb
                  (Binary32.of_Z
                     (time_now (Device.device [] [] false 44200 1000) - 1000))
                  (Binary32.mul (Binary32.of_Z 1) (Binary32.of_Z 86400))
             then Binary32.of_Z 1
             else polynomial (FO := Device.ops)
                    (Binary32.div
                       (Binary32.of_Z
                          (time_now (Device.device [] [] false 44200 1000) - 1000))
                       (Binary32.mul (Binary32.of_Z 1) (Binary32.of_Z 86400)))),
        state0).
Proof.
  split; [reflexivity|].
  split; [split; vm_compute; discriminate|].
  apply (proj1 rollout_probability _ Device.ops
           (Device.device [] [] false 44200 1000) state0 1000%Z
           (Binary32.of_Z 1));
    [reflexivity|split; vm_compute; discriminate].
Defined.

(** C6 fails as stated for the value the code returns: with priority 1,
    hence [seconds = 86400], and in normal mode, the binary32 result for
    [diff = 86390] is [8388610 * 2^-23], which is above 1, and the
    result for [diff = 86113] is below the result for [diff = 86112]. *)
Lemma rounded_polynomial_is_not_monotone :
  fallback (G state0) = false
  /\ fst (get_probability (FO := Device.ops) 0 (Binary32.of_Z 1)
            (Device.device [] [] false 86390 1000) state0)
     = Ret (S754_finite false 8388610 (-23))
  /\ Binary32.ltb (Binary32.of_Z 1) (S754_finite false 8388610 (-23)) = true
  /\ fst (get_probability (FO := Device.ops) 0 (Binary32.of_Z 1)
            (Device.device [] [] false 86112 1000) state0)
     = Ret (S754_finite false 16776660 (-24))
  /\ fst (get_probability (FO := Device.ops) 0 (Binary32.of_Z 1)
            (Device.device [] [] false 86113 1000) state0)
     = Ret (S754_finite false 16776658 (-24))
  /\ Binary32.ltb (S754_finite false 16776658 (-24))
                  (S754_finite false 16776660 (-24)) = true.
Proof. vm_compute. repeat split. Qed.

(* ===================================================================== *)
(** * Further properties of the option parser *)
(* ===================================================================== *)

Lemma parse_args_switch_result {F} (c : Z) (optarg : option string)
                               (w : world F) (s : state) :
  exists n s',
    parse_args_switch c optarg w s = (Exit n, s')
    /\ trace s' = trace s ++ [EvStderr usage_text]
    /\ ((n = 0%Z /\ known_option c) \/ (n = 1%Z /\ ~ known_option c)).
Proof.
  unfold parse_args_switch, known_option.
  destruct (Z.eqb_spec c OPTION_BRANCH) as [E1|E1];
    [|destruct (Z.eqb_spec c OPTION_FORCE) as [E2|E2];
      [|destruct (Z.eqb_spec c OPTION_FALLBACK) as [E3|E3];
        [|destruct (Z.eqb_spec c OPTION_HELP) as [E4|E4]]]];
    do 2 eexists; (split; [reflexivity|]); (split; [reflexivity|]);
    try (left; split; [reflexivity|]; tauto).
  right. split; [reflexivity|]. tauto.
Qed.

Lemma parse_args_cases {F} (w : world F) (s : state) :
  match parse_args w s with
  | (Ret _, s') => getopt_answers w = [] /\ s' = s
  | (Exit n, s') =>
      (exists c optarg rest,
         getopt_answers w = GetoptOption c optarg :: rest
         /\ trace s' = trace s ++ [EvStderr usage_text]
         /\ ((n = 0%Z /\ known_option c) \/ (n = 1%Z /\ ~ known_option c)))
      \/ (exists e rest,
            getopt_answers w = GetoptError e :: rest
            /\ trace s' = trace s ++ [EvStderr (libc_getopt_message w e);
                                      EvStderr usage_text]
            /\ G s' = G s
            /\ n = 1%Z)
  | (Blocked, _) => False
  | (Undefined, s') =>
      (exists rest, getopt_answers w = GetoptUndefined :: rest) /\ s' = s
  end.
Proof.
  unfold parse_args, getopt_answers.
  rewrite bind_run. cbn [ask].
  destruct (getopt_long_all _ options (argv w)) as [|[c optarg|e|] rest];
    cbn [parse_args_loop].
  - split; reflexivity.
  - rewrite bind_run.
    destruct (parse_args_switch_result c optarg w s) as (n & s' & -> & Ht & Hn).
    left. exists c, optarg, rest. auto.
  - change (parse_args_switch QUESTION_MARK None) with (@case_default F).
    unfold case_default, usage. proc_unfold.
    right. exists e, rest. split; [reflexivity|].
    rewrite <- app_assoc. repeat split.
  - split; [eexists|]; reflexivity.
Qed.

(** X1.  [parse_args] returns only when [getopt_long] finds no option on
    the command line, and has then changed nothing.  Any option at all
    ends the process right there, after the usage text: with status 0 if
    it is one of the four known options and with status 1 if it is not.
    An error of [getopt_long] -- an unknown option character, a missing
    or an unexpected argument -- ends it with status 1 after two lines
    on [stderr], the message of [getopt_long] itself and then the usage
    text.  The parser never sleeps, and its behaviour is undefined only
    where that of [getopt_long] is. *)
Theorem parse_args_outcome :
  forall (F : Type) (w : world F) (s : state),
    match parse_args w s with
    | (Ret _, s') => getopt_answers w = [] /\ s' = s
    | (Exit n, s') =>
        (exists c optarg rest,
           getopt_answers w = GetoptOption c optarg :: rest
           /\ trace s' = trace s ++ [EvStderr usage_text]
           /\ ((n = 0%Z /\ known_option c) \/ (n = 1%Z /\ ~ known_option c)))
        \/ (exists e rest,
              getopt_answers w = GetoptError e :: rest
              /\ trace s' = trace s ++ [EvStderr (libc_getopt_message w e);
                                        EvStderr usage_text]
              /\ G s' = G s
              /\ n = 1%Z)
    | (Blocked, _) => False
    | (Undefined, s') =>
        (exists rest, getopt_answers w = GetoptUndefined :: rest) /\ s' = s
    end.
Proof. intros F w s. apply parse_args_cases. Qed.

(* ===================================================================== *)
(** * Further properties of the mirror array *)
(* ===================================================================== *)

(** X2.  The walk "move forward by i non-NULL entries" stays inside the
    array exactly when [i] is below the number of non-NULL entries; from
    that number on it runs off the end. *)
Theorem move_forward_defined_iff :
  forall (a : list (option string)) (pos i : nat),
    (exists p m, move_forward a pos i = Some (p, m)) <-> i < count_live a.
Proof.
  intros a pos i. split.
  - intros (p & m & H).
    destruct (Nat.lt_ge_cases i (count_live a)) as [Hlt|Hge]; [exact Hlt|].
    rewrite (move_forward_none a pos i Hge) in H. discriminate.
  - intros H. destruct (move_forward_some a pos i H) as (p & m & Hm & _).
    eauto.
Qed.

Lemma nth_error_array_set_same {A} (a : list A) :
  forall p v, p < List.length a -> nth_error (array_set a p v) p = Some v.
Proof.
  induction a as [|x a IH]; intros [|p] v H; simpl in *; try lia; auto.
  apply IH. lia.
Qed.

Lemma nth_error_array_set_other {A} (a : list A) :
  forall p q v, p <> q -> nth_error (array_set a p v) q = nth_error a q.
Proof.
  induction a as [|x a IH]; intros [|p] [|q] v H; simpl; auto; try congruence.
Qed.

(** X3.  Setting an entry to NULL removes that mirror and no other: the
    walk over the new array never stops at the entry again, whatever
    [i], every other entry keeps its value, and the number of non-NULL
    entries goes down by exactly one. *)
Theorem removed_mirror_is_not_selected_again :
  forall (a : list (option string)) (p : nat) (m : string),
    nth_error a p = Some (Some m) ->
    (forall i m', move_forward (array_set a p None) 0 i <> Some (p, m'))
    /\ (forall q, q <> p ->
          nth_error (array_set a p None) q = nth_error a q)
    /\ S (count_live (array_set a p None)) = count_live a
    /\ List.length (array_set a p None) = List.length a.
Proof.
  intros a p m Hn. split; [|split; [|split]].
  - intros i m' H.
    destruct (move_forward_inv _ 0 i p m' H) as (p' & E & Hn' & _).
    simpl in E. subst p'.
    rewrite nth_error_array_set_same in Hn'; [discriminate|].
    eapply nth_error_live_bound; eauto.
  - intros q Hq. apply nth_error_array_set_other. congruence.
  - eapply count_live_array_set; eauto.
  - apply array_set_length.
Qed.

Lemma removed_mirror_is_not_selected_again_witness :
  nth_error [Some "m1"; Some "m2"; Some "m3"] 1 = Some (Some "m2")
  /\ (forall i m',
        move_forward (array_set [Some "m1"; Some "m2"; Some "m3"] 1 None) 0 i
        <> Some (1, m'))
  /\ (forall q, q <> 1 ->
        nth_error (array_set [Some "m1"; Some "m2"; Some "m3"] 1 None) q
        = nth_error [Some "m1"; Some "m2"; Some "m3"] q)
  /\ S (count_live (array_set [Some "m1"; Some "m2"; Some "m3"] 1 None))
     = count_live [Some "m1"; Some "m2"; Some "m3"]
  /\ List.length (array_set [Some "m1"; Some "m2"; Some "m3"] 1 None)
     = List.length [Some "m1"; Some "m2"; Some "m3"].
Proof.
  split; [reflexivity|].
  apply (removed_mirror_is_not_selected_again
           [Some "m1"; Some "m2"; Some "m3"] 1 "m2").
  reflexivity.
Defined.

(* ===================================================================== *)
(** * Further properties of the settings *)
(* ===================================================================== *)

Lemma chomp_app_nl (l : string) : chomp (l ++ nl) = l.
Proof.
  induction l as [|c l IH]; [reflexivity|].
  change (String c l ++ nl)%string with (String c (l ++ nl)).
  cbn [chomp]. rewrite IH.
  destruct l; reflexivity.
Qed.

Lemma chomp_cases (s : string) : chomp s = s \/ s = (chomp s ++ nl)%string.
Proof.
  induction s as [|c s IH]; [left; reflexivity|].
  destruct s as [|d s].
  - cbn [chomp]. destruct (Ascii.eqb_spec c (ascii_of_nat 10)) as [->|_].
    + right. reflexivity.
    + left. reflexivity.
  - change (chomp (String c (String d s)))
      with (String c (chomp (String d s))).
    destruct IH as [IH|IH].
    + left. rewrite IH. reflexivity.
    + right. rewrite IH at 1. reflexivity.
Qed.

(** X4.  [read_one_line] gives NULL exactly when the line could not be
    read, never ends the process and changes nothing.  The line it
    gives is the one read with a single newline taken off its end: a
    line read as [l] followed by a newline comes back as [l], a line
    without one (the last line of a file that does not end in a newline)
    comes back whole, and at most that one character is removed. *)
Theorem read_one_line_strips_one_newline :
  forall (F : Type) (w : world F) (s : state) (filename : string),
    (exists r, read_one_line filename w s = (Ret r, s)
               /\ (r = None <-> first_line w filename = None)
               /\ (forall l, first_line w filename = Some (l ++ nl)%string ->
                             r = Some l)
               /\ (forall line, first_line w filename = Some line ->
                     exists r', r = Some r'
                                /\ (r' = line \/ line = (r' ++ nl)%string))).
Proof.
  intros F w s filename. unfold read_one_line. rewrite bind_run. cbn [ask].
  eexists. split; [reflexivity|].
  destruct (first_line w filename) as [line|]; cbn [option_map].
  - split; [split; discriminate|]. split.
    + intros l [= ->]. rewrite chomp_app_nl. reflexivity.
    + intros line' [= <-]. exists (chomp line). split; [reflexivity|].
      apply chomp_cases.
  - split; [split; reflexivity|]. split; intros ? H; discriminate H.
Qed.

(** X5.  [load_positive_number] returns a number only if the option is
    there as a string, [strtoul] consumed that string to its end, and
    the number is not 0; it then has written nothing.  In every other
    case it ends the process with status 1 after one message that names
    the option. *)
Theorem load_positive_number_outcome :
  forall (F : Type) (w : world F) (s : state) (sec : uci_section)
         (name : string),
    match load_positive_number sec name w s with
    | (Ret n, s') =>
        s' = s /\ n <> 0%Z
        /\ exists str, uci_lookup_option_string sec name = Some str
                       /\ libc_strtoul w str = (n, ""%string)
    | (Exit status, s') =>
        status = 1%Z /\ G s' = G s
        /\ ((uci_lookup_option_string sec name = None
             /\ trace s' = trace s ++
                  [EvStderr ("autoupdater: error: unable to load option '"
                             ++ name ++ "'" ++ nl)])
            \/ (exists str n rest,
                  uci_lookup_option_string sec name = Some str
                  /\ libc_strtoul w str = (n, rest)
                  /\ (rest <> ""%string \/ n = 0%Z)
                  /\ trace s' = trace s ++
                       [EvStderr ("autoupdater: error: invalid value for option '"
                                  ++ name ++ "'" ++ nl)]))
    | (Blocked, _) | (Undefined, _) => False
    end.
Proof.
  intros F w s sec name. unfold load_positive_number.
  destruct (uci_lookup_option_string sec name) as [str|].
  - rewrite bind_run. cbn [ask].
    destruct (libc_strtoul w str) as [n rest] eqn:Hs.
    destruct (String.eqb_spec rest "") as [->|Hr]; cbn [negb orb].
    + destruct (Z.eqb_spec n 0) as [->|Hn].
      * split; [reflexivity|]. split; [reflexivity|]. right.
        exists str, 0%Z, ""%string. repeat split; auto.
      * split; [reflexivity|]. split; [exact Hn|]. exists str. auto.
    + split; [reflexivity|]. split; [reflexivity|]. right.
      exists str, n, rest. repeat split; auto.
  - split; [reflexivity|]. split; [reflexivity|]. left. split; reflexivity.
Qed.

Lemma count_live_all_None (items : list uci_item) :
  (forall it, In it items -> item_v_string it = None) ->
  count_live (map item_v_string items) = 0.
Proof.
  induction items as [|it items IH]; intros H; simpl; [reflexivity|].
  rewrite (H it (or_introl eq_refl)). apply IH.
  intros it' Hin. apply H. right. exact Hin.
Qed.

(** X6.  [load_string_list] returns only for an option of list type, and
    then with an array of one entry per item of the list, in the order
    of the list, and with [len] equal to their number; an empty list
    gives an empty array.  Each entry is the field [v.string] of its
    item and not the name of the item, where the configured value is:
    when that field is NULL in every item, the array holds no string at
    all, however many values the list has.  A missing option and an
    option of string type, even one that holds a single value, both end
    the process with status 1. *)
Theorem load_string_list_outcome :
  forall (F : Type) (w : world F) (s : state) (sec : uci_section)
         (name : string),
    match load_string_list sec name w s with
    | (Ret (a, len), s') =>
        s' = s
        /\ len = List.length a
        /\ exists items,
             uci_lookup_option (sec_options sec) name = Some (UCI_TYPE_LIST items)
             /\ List.length a = List.length items
             /\ (forall i, nth_error a i
                           = option_map item_v_string (nth_error items i))
             /\ ((forall it, In it items -> item_v_string it = None) ->
                 count_live a = 0)
    | (Exit status, s') =>
        status = 1%Z /\ G s' = G s
        /\ (uci_lookup_option (sec_options sec) name = None
            \/ exists v, uci_lookup_option (sec_options sec) name
                         = Some (UCI_TYPE_STRING v))
    | (Blocked, _) | (Undefined, _) => False
    end.
Proof.
  intros F w s sec name. unfold load_string_list.
  destruct (uci_lookup_option (sec_options sec) name) as [[v|l]|].
  - split; [reflexivity|]. split; [reflexivity|]. right. eauto.
  - cbn. rewrite length_map.
    split; [reflexivity|]. split; [reflexivity|].
    exists l. split; [reflexivity|]. split; [reflexivity|].
    split; [intros i; apply nth_error_map|apply count_live_all_None].
  - split; [reflexivity|]. split; [reflexivity|]. left. reflexivity.
Qed.

Lemma load_settings_returns {F} (w : world F) (s s' : state) :
  load_settings w s = (Ret tt, s') ->
  (trace s' = trace s
   /\ random_seed s' = random_seed s
   /\ random_calls s' = random_calls s
   /\ force (G s') = force (G s)
   /\ fallback (G s') = fallback (G s))
  /\ (forall b, branch (G s) = Some b -> branch (G s') = Some b)
  /\ branch (G s') <> None
  /\ good_signatures (G s') <> 0%Z
  /\ (force (G s) = true \/ enabled_in_settings w = true).
Proof.
  unfold enabled_in_settings, settings_section.
  unfold load_settings, load_positive_number, load_string_list, read_one_line.
  proc_unfold.
  repeat (destruct_innermost; cbn; try discriminate).
  all: intros [= <-]; cbn.
  all: repeat match goal with
              | |- _ /\ _ => split
              end; try reflexivity; try congruence.
  all: try (intros b Hb; congruence).
  all: try match goal with
           | H : (negb _ || (?z =? 0)%Z)%bool = false |- ?z <> 0%Z =>
               apply Bool.orb_false_iff in H; destruct H as [_ H];
               apply Z.eqb_neq in H; exact H
           end.
  all: try match goal with
           | H : (_ && negb (force _))%bool = false |- _ \/ _ =>
               apply Bool.andb_false_iff in H; destruct H as [H|H];
               [right; apply Bool.negb_false_iff in H; try exact H;
                try discriminate H
               |left; apply Bool.negb_false_iff in H; exact H]
           end.
  all: match goal with
       | H : negb (force _) = false |- _ \/ _ =>
           left; apply Bool.negb_false_iff in H; exact H
       end.
Qed.

Lemma load_settings_exits_0 {F} (w : world F) (s s' : state) :
  load_settings w s = (Exit 0%Z, s') ->
  force (G s) = false
  /\ enabled_in_settings w = false
  /\ trace s' = trace s ++ [EvStderr disabled_text]
  /\ n_mirrors (G s') = List.length (mirrors (G s'))
  /\ n_pubkeys (G s') = List.length (pubkeys (G s'))
  /\ good_signatures (G s') <> 0%Z.
Proof.
  unfold enabled_in_settings, settings_section.
  unfold load_settings, load_positive_number, load_string_list, read_one_line.
  proc_unfold.
  repeat (destruct_innermost; cbn; try discriminate).
  all: intros [= <-]; cbn; rewrite ?length_map.
  all: repeat match goal with
              | |- _ /\ _ => split
              end; try reflexivity.
  all: try match goal with
           | H : (negb _ || (?z =? 0)%Z)%bool = false |- ?z <> 0%Z =>
               apply Bool.orb_false_iff in H; destruct H as [_ H];
               apply Z.eqb_neq in H; exact H
           end.
  all: try match goal with
           | H : (_ && negb (force _))%bool = true |- force _ = false =>
               apply Bool.andb_true_iff in H; destruct H as [_ H];
               apply Bool.negb_true_iff in H; exact H
           | H : negb (force _) = true |- force _ = false =>
               apply Bool.negb_true_iff in H; exact H
           end.
  all: match goal with
       | H : (negb ?b && _)%bool = true |- ?b = false =>
           apply Bool.andb_true_iff in H; destruct H as [H _];
           apply Bool.negb_true_iff in H; exact H
       end.
Qed.

(** X7.  When [load_settings] returns it has written nothing and left
    [G.force] and [G.fallback] alone, and the globals are filled in:
    [G.branch] is set -- to the branch it held before the call if it held
    one, the configured branch being used only otherwise --,
    [G.good_signatures] is not 0, and [G.n_mirrors], [G.n_pubkeys] are
    the lengths of the arrays [G.mirrors], [G.pubkeys]; and either
    [G.force] was set or the settings have [enabled] equal to "1". *)
Theorem load_settings_establishes :
  forall (F : Type) (w : world F) (s s' : state),
    load_settings w s = (Ret tt, s') ->
    trace s' = trace s
    /\ force (G s') = force (G s)
    /\ fallback (G s') = fallback (G s)
    /\ (forall b, branch (G s) = Some b -> branch (G s') = Some b)
    /\ branch (G s') <> None
    /\ good_signatures (G s') <> 0%Z
    /\ n_mirrors (G s') = List.length (mirrors (G s'))
    /\ n_pubkeys (G s') = List.length (pubkeys (G s'))
    /\ (force (G s) = true \/ enabled_in_settings w = true).
Proof.
  intros F w s s' H.
  destruct (load_settings_returns w s s' H)
    as ((Ht & _ & _ & Hf & Hb) & Hbr & Hbn & Hg & He).
  destruct (load_settings_lengths w s s' H) as [Hm Hp].
  repeat split; auto.
Qed.

Lemma load_settings_establishes_witness :
  load_settings (Devices.with_enabled "1" ["m1"; "m2"]) state0
  = (Ret tt, snd (load_settings (Devices.with_enabled "1" ["m1"; "m2"]) state0))
  /\ branch (G (snd (load_settings (Devices.with_enabled "1" ["m1"; "m2"])
                       state0))) <> None
  /\ good_signatures (G (snd (load_settings
                               (Devices.with_enabled "1" ["m1"; "m2"]) state0)))
     <> 0%Z.
Proof.
  split; [reflexivity|].
  pose proof (load_settings_establishes _
                (Devices.with_enabled "1" ["m1"; "m2"]) state0 _ eq_refl) as H.
  split; [apply H|apply H].
Defined.

(** X8.  [load_settings] ends the process with status 0 in one case
    only: [G.force] is not set and the settings do not have [enabled]
    equal to "1".  The check is its last step: the exit comes after the
    branch, the signature count, the mirrors and the public keys were
    loaded without error, and its only output is "autoupdater is
    disabled". *)
Theorem load_settings_disabled_exit :
  forall (F : Type) (w : world F) (s s' : state),
    load_settings w s = (Exit 0%Z, s') ->
    force (G s) = false
    /\ enabled_in_settings w = false
    /\ trace s' = trace s ++ [EvStderr disabled_text]
    /\ n_mirrors (G s') = List.length (mirrors (G s'))
    /\ n_pubkeys (G s') = List.length (pubkeys (G s'))
    /\ good_signatures (G s') <> 0%Z.
Proof. intros F w s s'. apply load_settings_exits_0. Qed.

Lemma load_settings_disabled_exit_witness :
  load_settings (Devices.with_enabled "0" ["m1"; "m2"]) state0
  = (Exit 0%Z, snd (load_settings (Devices.with_enabled "0" ["m1"; "m2"]) state0))
  /\ enabled_in_settings (Devices.with_enabled "0" ["m1"; "m2"]) = false
  /\ trace (snd (load_settings (Devices.with_enabled "0" ["m1"; "m2"]) state0))
     = trace state0 ++ [EvStderr disabled_text].
Proof.
  split; [reflexivity|].
  pose proof (load_settings_disabled_exit _
                (Devices.with_enabled "0" ["m1"; "m2"]) state0 _ eq_refl) as H.
  split; [apply H|apply H].
Defined.

(* ===================================================================== *)
(** * Further properties of [main] *)
(* ===================================================================== *)

Lemma ends_normally_bind {F A B} (c : @proc F A) (k : A -> @proc F B) :
  ends_normally c -> (forall a, ends_normally (k a)) ->
  ends_normally (x <- c ;; k x).
Proof.
  intros Hc Hk w s. rewrite bind_run. specialize (Hc w s).
  destruct (c w s) as [[a|n| |] s1]; cbn in *; auto. apply Hk.
Qed.

Ltac ends_normally_step :=
  match goal with
  | |- ends_normally (bind _ _) => apply ends_normally_bind; [|intros ?]
  | |- ends_normally (match ?x with _ => _ end) => destruct x
  | |- ends_normally _ => intros ? ?; exact I
  end.

Lemma ends_normally_after_parse {F} : ends_normally (F := F) after_parse.
Proof.
  unfold after_parse.
  apply ends_normally_bind; [ends_normally_step|intros img].
  apply ends_normally_bind; [repeat ends_normally_step|intros _].
  apply ends_normally_bind.
  { unfold load_settings, load_positive_number, load_string_list,
      read_one_line.
    repeat ends_normally_step. }
  intros _. apply ends_normally_bind.
  { unfold randomize. repeat ends_normally_step. }
  intros _. unfold lock_autoupdater, flock.
  change (Z.testbit (Z.lor LOCK_EX LOCK_NB) 2) with true.
  repeat ends_normally_step.
Qed.

Lemma startup_after_parse {F} (w : world F) (s : state) :
  startup w s = (parse_args ;; after_parse) w s.
Proof.
  unfold startup, before_lock, after_parse.
  cbn [bind ret Monad_proc]. unfold proc_bind.
  destruct (parse_args w s) as [[[]|?| |] s1]; cbv beta iota; try reflexivity.
  unfold ask, proc_ret. cbv beta iota.
  destruct (image_name w) as [img|]; [|reflexivity].
  destruct (load_settings w s1) as [[[]|?| |] s2]; cbv beta iota;
    try reflexivity.
Qed.

Lemma before_lock_returns {F} (w : world F) (s s1 : state) :
  before_lock w s = (Ret tt, s1) ->
  getopt_answers w = []
  /\ image_name w <> None
  /\ exists s3, load_settings w s = (Ret tt, s3)
                /\ randomize w s3 = (Ret tt, s1).
Proof.
  unfold before_lock. rewrite bind_run.
  pose proof (parse_args_cases w s) as Hp.
  destruct (parse_args w s) as [[[]|?| |] s2]; try discriminate.
  destruct Hp as [Ha ->].
  rewrite bind_run. cbn [ask]. rewrite bind_run.
  destruct (image_name w); [|proc_unfold; discriminate].
  cbn [ret Monad_proc proc_ret]. rewrite bind_run.
  destruct (load_settings w s) as [[[]|?| |] s3] eqn:Hl; try discriminate.
  intros Hr. split; [exact Ha|]. split; [discriminate|].
  exists s3. split; [reflexivity|exact Hr].
Qed.

Lemma opens_of_before_lock (t : list event) :
  Forall before_lock_event t -> opens_of t = [].
Proof.
  induction 1 as [|e t He _ IH]; simpl; auto.
  destruct e; simpl in *; auto; contradiction.
Qed.

(** X9.  A device whose settings do not have [enabled] equal to "1" --
    the option is missing, has another value, or there are no settings
    at all -- never gets as far as the lock: whatever its command line,
    the run of [main] writes at most to [stderr], does not open or lock
    the lock file, calls [autoupdate] for no mirror and ends by [exit]
    rather than by returning from [main].  The option [--force] does
    not change this, since the parser ends the process on any option. *)
Theorem disabled_device_stops_before_lock :
  forall (F : Type) (w : world F),
    enabled_in_settings w = false ->
    Forall before_lock_event (trace (snd (run w)))
    /\ opens_of (trace (snd (run w))) = []
    /\ flocks_of (trace (snd (run w))) = []
    /\ attempts_of (trace (snd (run w))) = []
    /\ (forall n, fst (run w) <> Ret n)
    /\ fst (run w) <> Blocked.
Proof.
  intros F w He.
  assert (H : Forall before_lock_event (trace (snd (run w)))
              /\ (forall n, fst (run w) <> Ret n)
              /\ fst (run w) <> Blocked).
  { unfold run. rewrite main_startup, bind_run.
    unfold startup. rewrite bind_run.
    destruct (behaves_before_lock w state0) as (evs & Ht & Hev & _).
    pose proof (fun s1 => before_lock_returns w state0 s1) as Hr.
    pose proof (startup_after_parse w state0) as Hs.
    unfold startup in Hs. rewrite !bind_run in Hs.
    pose proof (parse_args_cases w state0) as Hp.
    pose proof (ends_normally_after_parse w state0) as Hn.
    destruct (before_lock w state0) as [[[]|n| |] s1]; cbn [fst snd] in *.
    - exfalso. destruct (Hr s1 eq_refl) as (_ & _ & s3 & Hl & _).
      destruct (load_settings_returns w state0 s3 Hl)
        as (_ & _ & _ & _ & [Hf|Hen]).
      + discriminate Hf.
      + congruence.
    - rewrite Ht. split; [exact Hev|]. split; discriminate.
    - exfalso.
      destruct (parse_args w state0) as [[[]|?| |] s2]; try discriminate;
        try contradiction.
      destruct Hp as [_ ->]. rewrite <- Hs in Hn. exact Hn.
    - rewrite Ht. split; [exact Hev|]. split; discriminate. }
  destruct H as (Hev & Hret & Hbl).
  split; [exact Hev|].
  split; [apply opens_of_before_lock, Hev|].
  split; [apply flocks_of_before_lock, Hev|].
  split; [|split; assumption].
  apply attempts_of_startup.
  eapply Forall_impl; [apply before_lock_startup_event|exact Hev].
Qed.

Lemma disabled_device_stops_before_lock_witness :
  enabled_in_settings (Devices.with_enabled "0" ["m1"; "m2"]) = false
  /\ opens_of (trace (snd (run (Devices.with_enabled "0" ["m1"; "m2"])))) = []
  /\ attempts_of (trace (snd (run (Devices.with_enabled "0" ["m1"; "m2"])))) = [].
Proof.
  split; [reflexivity|].
  pose proof (disabled_device_stops_before_lock _
                (Devices.with_enabled "0" ["m1"; "m2"]) eq_refl) as H.
  split; apply H.
Defined.



(* ===================================================================== *)
(** * Further properties of the random selection *)
(* ===================================================================== *)

Lemma randomize_returns {F} (w : world F) (s s' : state) :
  randomize w s = (Ret tt, s') ->
  exists nsec, clock_monotonic_nsec w = inl nsec
               /\ random_seed s' = (nsec mod 2 ^ 32)%Z
               /\ random_calls s' = 0.
Proof.
  unfold randomize. proc_unfold.
  destruct (clock_monotonic_nsec w) as [nsec|e]; cbn; [|discriminate].
  intros [= <-]. exists nsec. auto.
Qed.

Lemma lock_autoupdater_random {F} (w : world F) (s s' : state) o :
  lock_autoupdater w s = (o, s') ->
  random_seed s' = random_seed s /\ random_calls s' = random_calls s.
Proof.
  unfold lock_autoupdater, flock. proc_unfold.
  destruct (sys_open w _); cbn; [|intros [= _ <-]; auto].
  match goal with
  | |- context [locked_elsewhere w ?f] => destruct (locked_elsewhere w f)
  end; cbn; intros [= _ <-]; auto.
Qed.

Lemma loop_body_seed {F} (w : world F) (n : nat) (s s' : state) o :
  loop_body n w s = (o, s') -> random_seed s' = random_seed s.
Proof.
  unfold loop_body, autoupdate. proc_unfold.
  destruct (move_forward _ _ _) as [[pos m]|]; cbn; intros [= _ <-]; auto.
Qed.

Lemma mirror_loop_seed {F} (w : world F) (n : nat) :
  forall (s s' : state) o,
    mirror_loop n w s = (o, s') -> random_seed s' = random_seed s.
Proof.
  induction n as [|n IH]; intros s s' o.
  - intros [= _ <-]. reflexivity.
  - cbn [mirror_loop]. rewrite bind_run.
    destruct (loop_body (S n) w s) as [[[]|?| |] s1] eqn:Hb;
      try (intros [= _ <-]; eapply loop_body_seed; eauto).
    intros H. rewrite (IH _ _ _ H). eapply loop_body_seed; eauto.
Qed.

Lemma nth_error_live_entries (a : list (option string)) :
  forall pos m, nth_error a pos = Some (Some m) ->
  nth_error (live_entries a) (count_live (firstn pos a)) = Some m.
Proof.
  induction a as [|x a IH]; intros [|pos] m H; simpl in *; try discriminate.
  - injection H as ->. reflexivity.
  - destruct x; simpl; apply IH; exact H.
Qed.

Lemma startup_random_state {F} (w : world F) (s1 : state) :
  startup w state0 = (Ret tt, s1) ->
  exists nsec, clock_monotonic_nsec w = inl nsec
               /\ random_seed s1 = (nsec mod 2 ^ 32)%Z
               /\ random_calls s1 = 0.
Proof.
  unfold startup. rewrite bind_run.
  destruct (before_lock w state0) as [[[]|?| |] s2] eqn:Hb; try discriminate.
  intros Hl.
  destruct (before_lock_returns w state0 s2 Hb) as (_ & _ & s3 & _ & Hr).
  destruct (randomize_returns w s3 s2 Hr) as (nsec & Hc & Hseed & Hcalls).
  destruct (lock_autoupdater_random w s2 s1 _ Hl) as [E1 E2].
  exists nsec. rewrite E1, E2. auto.
Qed.

(** X11.  In a run in which start-up succeeds the generator is seeded
    once, with the nanoseconds of the monotonic clock, and no number has
    been drawn when the loop starts.  The loop, entered with an array of
    N mirrors none of which is NULL, calls [random()] once per mirror
    and for nothing else, and the first mirror it tries is the one at
    index [r mod N] of the array, [r] being the next number of the
    generator. *)
Theorem first_mirror_is_first_random_number :
  forall (F : Type) (w : world F),
    (forall s1 : state,
       startup w state0 = (Ret tt, s1) ->
       exists nsec,
         clock_monotonic_nsec w = inl nsec
         /\ random_seed s1 = (nsec mod 2 ^ 32)%Z
         /\ random_calls s1 = 0)
    /\ (forall s : state,
          mirrors_loaded (G s) ->
          exists (tried : list string) (s' : state),
            attempt_all w s = (Ret 1%Z, s')
            /\ random_seed s' = random_seed s
            /\ random_calls s' = random_calls s + n_mirrors (G s)
            /\ attempts_of (trace s') = attempts_of (trace s) ++ tried
            /\ hd_error tried
               = nth_error (live_entries (mirrors (G s)))
                   (drawn_index w s (n_mirrors (G s)))).
Proof.
  intros F w. split; [apply startup_random_state|].
  intros s HL.
  pose proof (mirrors_loaded_count _ HL) as Hcount.
  unfold attempt_all. rewrite bind_run. cbn [getG]. rewrite bind_run.
  destruct (n_mirrors (G s)) as [|k] eqn:Hn.
  - cbn [mirror_loop]. proc_unfold.
    exists []. eexists. split; [reflexivity|]. cbn.
    rewrite Nat.add_0_r, attempts_of_app, !app_nil_r.
    repeat split.
    destruct (live_entries (mirrors (G s))) eqn:E; [|
      rewrite <- count_live_length_entries, E in Hcount; discriminate].
    destruct (drawn_index w s 0); reflexivity.
  - destruct (loop_body_spec w s k Hcount)
      as (pos & m & _ & Hnth & Hidx & Hbody).
    destruct (mirror_loop_spec w k (after_attempt s pos m)
                (after_attempt_live _ _ _ _ Hcount Hnth))
      as (s' & tried & Hloop & Htr & _ & _ & _ & Hcalls').
    pose proof (mirror_loop_seed w k _ _ _ Hloop) as Hseed'.
    exists (m :: tried). eexists.
    cbn [mirror_loop]. rewrite bind_run, Hbody, Hloop.
    proc_unfold. split; [reflexivity|]. cbn.
    rewrite Hseed', Hcalls', Htr. cbn.
    rewrite !attempts_of_app, attempts_of_calls. cbn.
    rewrite app_nil_r.
    split; [reflexivity|]. split; [lia|].
    split; [rewrite <- app_assoc; reflexivity|].
    rewrite <- Hidx. symmetry. apply nth_error_live_entries, Hnth.
Qed.

Lemma first_mirror_is_first_random_number_witness :
  mirrors_loaded (G (Device.loop_entry ["m1"; "m2"; "m3"]))
  /\ exists (tried : list string) (s' : state),
       attempt_all (Device.device [] ["m1"; "m2"; "m3"] false 1000 1000)
         (Device.loop_entry ["m1"; "m2"; "m3"]) = (Ret 1%Z, s')
       /\ random_seed s' = random_seed (Device.loop_entry ["m1"; "m2"; "m3"])
       /\ random_calls s'
          = random_calls (Device.loop_entry ["m1"; "m2"; "m3"])
            + n_mirrors (G (Device.loop_entry ["m1"; "m2"; "m3"]))
       /\ attempts_of (trace s')
          = attempts_of (trace (Device.loop_entry ["m1"; "m2"; "m3"])) ++ tried
       /\ hd_error tried
          = nth_error
              (live_entries (mirrors (G (Device.loop_entry ["m1"; "m2"; "m3"]))))
              (drawn_index (Device.device [] ["m1"; "m2"; "m3"] false 1000 1000)
                 (Device.loop_entry ["m1"; "m2"; "m3"])
                 (n_mirrors (G (Device.loop_entry ["m1"; "m2"; "m3"])))).
Proof.
  split; [split; reflexivity|].
  apply (proj2 (first_mirror_is_first_random_number _
                  (Device.device [] ["m1"; "m2"; "m3"] false 1000 1000))).
  split; reflexivity.
Defined.

Lemma opens_of_app (t u : list event) :
  opens_of (t ++ u) = opens_of t ++ opens_of u.
Proof. apply flat_map_app. Qed.

(* ===================================================================== *)
(** * Further properties of the lock *)
(* ===================================================================== *)

(** X12.  [lock_autoupdater] opens the lock file once, with
    [O_CREAT|O_RDONLY] and mode 0666, and never changes [G].  It returns
    exactly when the file could be opened and no other process holds the
    lock, after a single [flock] and without output.  When the file
    cannot be opened it calls no [flock] at all and exits with status 1
    after a message that carries the error text; when the lock is held
    it exits with status 1 as well.  It never sleeps. *)
Theorem lock_autoupdater_outcome :
  forall (F : Type) (w : world F) (s : state),
    G (snd (lock_autoupdater w s)) = G s
    /\ opens_of (trace (snd (lock_autoupdater w s)))
       = opens_of (trace s)
         ++ [("/var/run/autoupdater.lock"%string, Z.lor O_CREAT O_RDONLY, 438%Z)]
    /\ match fst (lock_autoupdater w s) with
       | Ret _ =>
           exists fd,
             sys_open w "/var/run/autoupdater.lock" = inl fd
             /\ locked_elsewhere w "/var/run/autoupdater.lock" = false
             /\ flocks_of (trace (snd (lock_autoupdater w s)))
                = flocks_of (trace s) ++ [(fd, Z.lor LOCK_EX LOCK_NB)]
             /\ stderr_of (trace (snd (lock_autoupdater w s)))
                = stderr_of (trace s)
       | Exit n =>
           n = 1%Z
           /\ ((exists errno,
                  sys_open w "/var/run/autoupdater.lock" = inr errno
                  /\ flocks_of (trace (snd (lock_autoupdater w s)))
                     = flocks_of (trace s)
                  /\ stderr_of (trace (snd (lock_autoupdater w s)))
                     = stderr_of (trace s)
                       ++ [("autoupdater: error: unable to open lock file: "
                            ++ errno ++ nl)%string])
               \/ (exists fd,
                     sys_open w "/var/run/autoupdater.lock" = inl fd
                     /\ locked_elsewhere w "/var/run/autoupdater.lock" = true
                     /\ stderr_of (trace (snd (lock_autoupdater w s)))
                        = stderr_of (trace s) ++ [already_running_text]))
       | Blocked | Undefined => False
       end.
Proof.
  intros F w s. unfold lock_autoupdater, flock. proc_unfold.
  destruct (sys_open w _) as [fd|errno] eqn:Ho; cbn.
  - destruct (locked_elsewhere w _) eqn:Hh; cbn.
    + split; [reflexivity|].
      rewrite !opens_of_app, !stderr_of_app. cbn. rewrite !app_nil_r.
      split; [reflexivity|]. split; [reflexivity|].
      right. exists fd. auto.
    + split; [reflexivity|].
      rewrite !opens_of_app, !flocks_of_app, !stderr_of_app. cbn.
      rewrite !app_nil_r.
      split; [reflexivity|]. exists fd. auto.
  - split; [reflexivity|].
    rewrite !opens_of_app, !flocks_of_app, !stderr_of_app. cbn.
    rewrite !app_nil_r.
    split; [reflexivity|]. split; [reflexivity|].
    left. exists errno. auto.
Qed.

(* ===================================================================== *)
(** * Further properties of the update probability *)
(* ===================================================================== *)



Lemma Rpower_0_75_bounds (y : R) :
  (0 <= y)%R -> (0 < Rpower (3 / 4) y <= 1)%R.
Proof.
  intros Hy. unfold Rpower. split; [apply exp_pos|].
  assert (Hln : (ln (3 / 4) < 0)%R).
  { rewrite <- ln_1. apply ln_increasing; lra. }
  destruct (Rle_lt_or_eq_dec 0 y Hy) as [Hpos|<-].
  - left. rewrite <- exp_0. apply exp_increasing. nra.
  - rewrite Rmult_0_l, exp_0. lra.
Qed.


(** X14.  In exact arithmetic and for every priority >= 0, whatever
    [get_probability] returns is a probability, a number from 0 to 1: in
    either mode, for every clock and every uptime. *)
Theorem exact_probability_in_unit_interval :
  forall (w : world R) (s : state) (date : Z) (priority p : R),
    (0 <= priority)%R ->
    fst (get_probability (FO := Exact.ops) date priority w s) = Ret p ->
    (0 <= p <= 1)%R.
Proof.
  intros w s date priority p Hp.
  destruct (Z.lt_ge_cases (TIME_T_MAX w) (time_now w - date)) as [Ho|Ho].
  { rewrite (get_probability_overflow (FO := Exact.ops) w s date priority Ho).
    discriminate. }
  destruct (Z.lt_ge_cases (time_now w - date) 0) as [Hd|Hd'].
  - destruct (proc_uptime w) as [uptime|] eqn:Hu.
    + rewrite (get_probability_clock_behind (FO := Exact.ops)
                 w s date priority uptime Hd Hu).
      cbn. destruct (Exact.ltb uptime 600); intros [= <-]; [lra|].
      pose proof (Rpower_0_75_bounds priority Hp). lra.
    + unfold get_probability, get_uptime. proc_unfold.
      destruct (Z.ltb_spec (TIME_T_MAX w) (time_now w - date)); [lia|].
      destruct (Z.ltb_spec (time_now w - date) 0); [|lia].
      rewrite Hu. cbn. discriminate.
  - assert (Hd : (0 <= time_now w - date <= TIME_T_MAX w)%Z) by lia.
    destruct (fallback (G s)) eqn:Hf.
    + rewrite (get_probability_fallback (FO := Exact.ops)
                 w s date priority Hd Hf).
      cbn. destruct (Exact.geb _ _); intros [= <-]; lra.
    + rewrite (get_probability_rollout (FO := Exact.ops)
                 w s date priority Hd Hf).
      assert (H0 : (0 <= IZR (time_now w - date))%R) by (apply IZR_le; exact Hd').
      cbn. unfold Exact.geb.
      destruct (Rge_dec _ _) as [H|H]; intros [= <-]; [lra|].
      assert (Hpos : (0 < priority)%R) by lra.
      pose proof (exact_rollout_range priority (time_now w - date) Hpos Hd') as Hr.
      unfold exact_rollout in Hr.
      destruct (Rge_dec _ _) as [H'|_]; [contradiction|exact Hr].
Qed.

Lemma exact_probability_in_unit_interval_witness :
  (0 <= 1)%R
  /\ fst (get_probability (FO := Exact.ops) 1000 1%R
            (Device.exact_device 1000 1000%R) state0) = Ret 0%R
  /\ (0 <= 0 <= 1)%R.
Proof.
  assert (H : fst (get_probability (FO := Exact.ops) 1000 1%R
                     (Device.exact_device 1000 1000%R) state0) = Ret 0%R).
  { rewrite (get_probability_rollout (FO := Exact.ops)
               (Device.exact_device 1000 1000%R) state0 1000 1%R);
      [|split; vm_compute; discriminate|reflexivity].
    cbn. unfold Exact.geb.
    destruct (Rge_dec _ _) as [H|H]; [lra|].
    f_equal. unfold Rdiv. ring. }
  split; [lra|]. split; [exact H|].
  apply (exact_probability_in_unit_interval
           (Device.exact_device 1000 1000%R) state0 1000%Z 1%R 0%R);
    [lra|exact H].
Defined.



Lemma polynomial_derivative (x : R) :
  derivable_pt_lim (polynomial (FO := Exact.ops)) x (6 * x - 6 * x * x)%R.
Proof.
  change (polynomial (FO := Exact.ops))
    with ((fct_cte 3 * id * id) - (fct_cte 2 * id * id * id))%F.
  replace (6 * x - 6 * x * x)%R
    with (((0 * id x + fct_cte 3 x * 1) * id x + (fct_cte 3 * id)%F x * 1)
          - (((0 * id x + fct_cte 2 x * 1) * id x + (fct_cte 2 * id)%F x * 1)
               * id x
             + (fct_cte 2 * id * id)%F x * 1))%R
    by (unfold mult_fct, fct_cte, id; ring).
  apply derivable_pt_lim_minus.
  - apply derivable_pt_lim_mult; [|apply derivable_pt_lim_id].
    apply derivable_pt_lim_mult; [|apply derivable_pt_lim_id].
    apply derivable_pt_lim_const.
  - apply derivable_pt_lim_mult; [|apply derivable_pt_lim_id].
    apply derivable_pt_lim_mult; [|apply derivable_pt_lim_id].
    apply derivable_pt_lim_mult; [|apply derivable_pt_lim_id].
    apply derivable_pt_lim_const.
Qed.

(** X16.  The polynomial of [get_probability] is what the comment in the
    source says of it: over the reals it has the value 0 at 0 and the
    value 1 at 1, and its first derivative, [6x - 6x^2], is 0 at both 0
    and 1.  Computed in binary32 the two end values are exact as
    well. *)
Theorem polynomial_meets_its_comment :
  polynomial (FO := Exact.ops) 0%R = 0%R
  /\ polynomial (FO := Exact.ops) 1%R = 1%R
  /\ (forall x : R,
        derivable_pt_lim (polynomial (FO := Exact.ops)) x
          (6 * x - 6 * x * x)%R)
  /\ derivable_pt_lim (polynomial (FO := Exact.ops)) 0%R 0%R
  /\ derivable_pt_lim (polynomial (FO := Exact.ops)) 1%R 0%R
  /\ (forall libm_powf,
        polynomial (FO := Binary32.ops libm_powf) (Binary32.of_Z 0)
        = Binary32.of_Z 0
        /\ polynomial (FO := Binary32.ops libm_powf) (Binary32.of_Z 1)
           = Binary32.of_Z 1).
Proof.
  split; [cbn; ring|]. split; [cbn; ring|].
  split; [exact polynomial_derivative|].
  split; [|split].
  - replace 0%R with (6 * 0 - 6 * 0 * 0)%R at 2 by ring.
    apply polynomial_derivative.
  - replace 0%R with (6 * 1 - 6 * 1 * 1)%R by ring.
    apply polynomial_derivative.
  - intros libm_powf. split; reflexivity.
Qed.

(** ** Conversions to binary32 keep the sign *)

Lemma shr_1_nonneg (mrs : shr_record) :
  (0 <= shr_m mrs)%Z -> (0 <= shr_m (shr_1 mrs))%Z.
Proof.
  destruct mrs as [m r t]. cbn [shr_m].
  destruct m as [|[p|p|]|p]; cbn; intros H; lia.
Qed.

Lemma iter_pos_shr_1_nonneg (p : positive) :
  forall mrs : shr_record,
    (0 <= shr_m mrs)%Z -> (0 <= shr_m (iter_pos shr_1 p mrs))%Z.
Proof.
  induction p as [p IH|p IH|]; intros mrs H; cbn [iter_pos].
  - apply IH, IH, shr_1_nonneg, H.
  - apply IH, IH, H.
  - apply shr_1_nonneg, H.
Qed.

Lemma shr_fexp_nonneg (m e : Z) (l : location) :
  (0 <= m)%Z ->
  (0 <= shr_m (fst (shr_fexp Binary32.prec Binary32.emax m e l)))%Z.
Proof.
  intros H. unfold shr_fexp, shr.
  assert (H0 : (0 <= shr_m (shr_record_of_loc m l))%Z).
  { destruct l as [|[| |]]; exact H. }
  destruct (_ - e)%Z; cbn [fst]; auto.
  apply iter_pos_shr_1_nonneg, H0.
Qed.

Lemma round_nearest_even_nonneg (m : Z) (l : location) :
  (0 <= m)%Z -> (0 <= round_nearest_even m l)%Z.
Proof.
  intros H. unfold round_nearest_even.
  destruct l as [|[| |]]; try destruct (Z.even m); lia.
Qed.

Lemma binary_round_aux_nonneg (m e : Z) (l : location) :
  (0 <= m)%Z ->
  nonneg_float (binary_round_aux Binary32.prec Binary32.emax false m e l).
Proof.
  intros H. unfold binary_round_aux.
  pose proof (shr_fexp_nonneg m e l H) as H1.
  destruct (shr_fexp Binary32.prec Binary32.emax m e l) as [mrs' e'].
  cbn [fst] in H1.
  pose proof (shr_fexp_nonneg
                (round_nearest_even (shr_m mrs') (loc_of_shr_record mrs'))
                e' loc_Exact
                (round_nearest_even_nonneg _ _ H1)) as H2.
  destruct (shr_fexp Binary32.prec Binary32.emax
              (round_nearest_even (shr_m mrs') (loc_of_shr_record mrs'))
              e' loc_Exact) as [mrs'' e''].
  cbn [fst] in H2.
  destruct (shr_m mrs'') as [|p|p]; cbn; auto; try lia.
  destruct (e'' <=? _)%Z; exact I.
Qed.

Lemma of_Z_nonneg (n : Z) : (0 <= n)%Z -> nonneg_float (Binary32.of_Z n).
Proof.
  intros H. unfold Binary32.of_Z, binary_normalize.
  destruct n as [|p|p]; [exact I| |lia].
  unfold binary_round.
  destruct (shl_align p 0 _) as [mz ez].
  apply binary_round_aux_nonneg. lia.
Qed.

Lemma geb_zero (x : Binary32.float) (sgn : bool) :
  nonneg_float x -> Binary32.geb x (S754_zero sgn) = true.
Proof.
  destruct x as [t|[|]| |[|] m e]; cbn; intros H;
    try contradiction; reflexivity.
Qed.

(** X17.  In binary32 and in normal mode, a rollout window of zero
    seconds -- a priority of zero in particular, of either sign -- gives
    the probability 1 for every [diff >= 0] that the type [time_t] can
    hold, however large: the conversion of [diff] to [float] is never
    negative and never a NaN, so that [diff >= seconds] holds and the
    quotient [diff / seconds] is not formed with a zero divisor. *)
Theorem binary32_zero_window_gives_1 :
  forall (libm_powf : Binary32.float -> Binary32.float -> Binary32.float)
         (w : world Binary32.float) (s : state) (date : Z)
         (priority : Binary32.float),
    fallback (G s) = false ->
    (0 <= time_now w - date <= TIME_T_MAX w)%Z ->
    (forall sgn,
       Binary32.mul priority (Binary32.of_Z 86400) = S754_zero sgn ->
       get_probability (FO := Binary32.ops libm_powf) date priority w s
       = (Ret (Binary32.of_Z 1), s))
    /\ (forall sgn,
          priority = S754_zero sgn ->
          get_probability (FO := Binary32.ops libm_powf) date priority w s
          = (Ret (Binary32.of_Z 1), s)).
Proof.
  intros libm_powf w s date priority Hf Hd.
  assert (H : forall sgn,
            Binary32.mul priority (Binary32.of_Z 86400) = S754_zero sgn ->
            get_probability (FO := Binary32.ops libm_powf) date priority w s
            = (Ret (Binary32.of_Z 1), s)).
  { intros sgn Hs.
    rewrite (get_probability_rollout (FO := Binary32.ops libm_powf)
               w s date priority Hd Hf).
    unfold rollout_seconds.
    change (@fmul _ (Binary32.ops libm_powf) priority
              (@of_int _ (Binary32.ops libm_powf) 86400))
      with (Binary32.mul priority (Binary32.of_Z 86400)).
    rewrite Hs.
    change (@fge _ (Binary32.ops libm_powf)
              (@of_int _ (Binary32.ops libm_powf) (time_now w - date))
              (S754_zero sgn))
      with (Binary32.geb (Binary32.of_Z (time_now w - date)) (S754_zero sgn)).
    rewrite (geb_zero _ sgn (of_Z_nonneg _ (proj1 Hd))). reflexivity. }
  split; [exact H|].
  intros sgn ->. apply (H (xorb sgn false)). reflexivity.
Qed.

Lemma binary32_zero_window_gives_1_witness :
  fallback (G state0) = false
  /\ (0 <= time_now (Device.device [] [] false 5000 1000) - 1000
      <= TIME_T_MAX (Device.device [] [] false 5000 1000))%Z
  /\ get_probability (FO := Device.ops) 1000 (Binary32.of_Z 0)
       (Device.device [] [] false 5000 1000) state0
     = (Ret (Binary32.of_Z 1), state0).
Proof.
  split; [reflexivity|].
  split; [split; vm_compute; discriminate|].
  apply (proj2 (binary32_zero_window_gives_1 Binary32.powf_zero_exponent
                  (Device.device [] [] false 5000 1000) state0 1000%Z
                  (Binary32.of_Z 0) eq_refl
                  ltac:(split; vm_compute; discriminate)) false).
  reflexivity.
Defined.
